(** * A task manager: the task collection, its queries and its persistence

    Shallow embedding of [exersiceAI.py]: the [Task] entity, the
    [TaskManager] aggregate (identifier assignment, deletion, search,
    sorting) and its persistence operations (load, save, export, import).

    Conventions of the embedding.
    - A Python [int] is a [Z]; a [str] is a [string] (its UTF-8 bytes, whose
      byte order is the code point order Python compares by); [None] or a
      value is an [option]; a [list] is a [list].
    - Objects are values.  Where the source mutates a task that is already
      in [self.tasks] (CSV import), the task is addressed by its index in
      the list and updated there.
    - The built-ins [str.lower] and [str.strip] and the clock are an
      interface ([Builtins]); the [json] and [csv] libraries are an
      interface ([Codec]): a write may fail and leave a part of the text
      in the file, a document written whole is read back, and rows
      written whole are read back when the reader takes their fields.
    - The fields of a task are typed ([task_id] is an integer, [title] a
      string, ...); a record read from a file that holds a value of
      another type in a field is rejected by [from_dict] with a
      [TypeError], where the source would store the value unchecked.
    - An operation of the manager is a function from the state to an
      outcome (a returned value or a raised exception) and the state it
      leaves behind, so that what an exception leaves in [self.tasks] and
      in the files is visible.  Console output is not modelled.
    - A [KeyboardInterrupt] is modelled where the source handles it, in
      the [try] of [main]. *)

From Stdlib Require Import ZArith String Ascii DecimalString.
From stdpp Require Import base option list sorting gmap strings.

Local Open Scope Z_scope.

(** ** Task *)

Record Task := mkTask {
  task_id : Z;
  title : string;
  completed : bool;
  created_at : string;
  priority : option string;
  due_date : option string;
  tags : list string
}.

Definition set_id (i : Z) (t : Task) : Task :=
  mkTask i (title t) (completed t) (created_at t) (priority t) (due_date t) (tags t).

Definition set_tags (l : list string) (t : Task) : Task :=
  mkTask (task_id t) (title t) (completed t) (created_at t) (priority t) (due_date t) l.

Definition set_created_at (c : string) (t : Task) : Task :=
  mkTask (task_id t) (title t) (completed t) c (priority t) (due_date t) (tags t).

(** Python truth value of a [str]: the empty string is false. *)
Definition truthy (s : string) : bool := negb (String.eqb s "").

(** Python truth value of an optional [str]: [None] and [""] are false. *)
Definition truthy_opt (o : option string) : bool :=
  match o with Some s => truthy s | None => false end.

(** [tag in self.tags] *)
Definition tag_in (tag : string) (l : list string) : bool :=
  existsb (String.eqb tag) l.

(** [Task.add_tag], on the list of tags. *)
Definition add_tag_list (tag : string) (l : list string) : list string :=
  if truthy tag && negb (tag_in tag l) then l ++ [tag] else l.

Definition add_tag (tag : string) (t : Task) : Task :=
  set_tags (add_tag_list tag (tags t)) t.

Definition mark_completed (t : Task) : Task :=
  mkTask (task_id t) (title t) true (created_at t) (priority t) (due_date t) (tags t).

(** [Task.__init__] followed by the assignment of the identifier: the
    source leaves [id] at [None] only between the two. *)
Definition new_task (i : Z) (now : string) (ttl : string)
    (prio due : option string) : Task :=
  mkTask i ttl false now prio due [].

(** ** TaskManager: identifiers, adding and deleting *)

(** [max(task.id for task in tasks)] for a collection with first task [t]. *)
Definition max_id (t : Task) (l : list Task) : Z :=
  foldl (fun m x => Z.max m (task_id x)) (task_id t) l.

Definition _generate_id (tasks : list Task) : Z :=
  match tasks with
  | [] => 1
  | t :: l => max_id t l + 1
  end.

(** [add_task]: the new collection and the task returned. *)
Definition add_task (now ttl : string) (prio due : option string)
    (tasks : list Task) : list Task * Task :=
  let task := new_task (_generate_id tasks) now ttl prio due in
  (tasks ++ [task], task).

(** [delete_task]: removes the first task with the identifier. *)
Fixpoint delete_task (i : Z) (tasks : list Task) : list Task * bool :=
  match tasks with
  | [] => ([], false)
  | t :: l =>
      if task_id t =? i then (l, true)
      else let '(l', found) := delete_task i l in (t :: l', found)
  end.

(** [complete_task]: marks the first task with the identifier. *)
Fixpoint complete_task (i : Z) (tasks : list Task) : list Task * bool :=
  match tasks with
  | [] => ([], false)
  | t :: l =>
      if task_id t =? i then (mark_completed t :: l, true)
      else let '(l', found) := complete_task i l in (t :: l', found)
  end.

(** ** Built-ins of the language that the manager calls *)

(** [str.lower], [str.strip] and the clock: [strftime_now n] is the
    ["%Y-%m-%d %H:%M:%S"] rendering of the [n]-th reading of
    [datetime.now()]. *)
Class Builtins := {
  lower : string → string;
  strip : string → string;
  strftime_now : nat → string
}.

(** An instance for pure ASCII text, to run the definitions. *)
Definition ascii_lower_char (c : ascii) : ascii :=
  let n := nat_of_ascii c in
  if (65 <=? n)%nat && (n <=? 90)%nat then ascii_of_nat (n + 32) else c.

Fixpoint ascii_lower (s : string) : string :=
  match s with
  | EmptyString => EmptyString
  | String c s' => String (ascii_lower_char c) (ascii_lower s')
  end.

Definition ascii_space (c : ascii) : bool :=
  let n := nat_of_ascii c in
  (n =? 32)%nat || ((9 <=? n)%nat && (n <=? 13)%nat)
  || ((28 <=? n)%nat && (n <=? 31)%nat).

Fixpoint lstrip (s : string) : string :=
  match s with
  | EmptyString => EmptyString
  | String c s' => if ascii_space c then lstrip s' else s
  end.

Fixpoint rstrip (s : string) : string :=
  match s with
  | EmptyString => EmptyString
  | String c s' =>
      match rstrip s' with
      | EmptyString => if ascii_space c then EmptyString else String c EmptyString
      | r => String c r
      end
  end.

Definition ascii_strip (s : string) : string := rstrip (lstrip s).

Definition ascii_builtins (clock : nat → string) : Builtins :=
  {| lower := ascii_lower; strip := ascii_strip; strftime_now := clock |}.

(** ** Strings: [in], [split], [join] *)

Fixpoint is_prefix (p s : string) : bool :=
  match p, s with
  | EmptyString, _ => true
  | String a p', String b s' => Ascii.eqb a b && is_prefix p' s'
  | String _ _, EmptyString => false
  end.

(** [needle in hay] on strings. *)
Fixpoint contains (needle hay : string) : bool :=
  is_prefix needle hay ||
  match hay with
  | EmptyString => false
  | String _ h => contains needle h
  end.

(** [s.split(sep)] for a one-character separator. *)
Fixpoint split_on (sep : ascii) (s : string) : list string :=
  match s with
  | EmptyString => [EmptyString]
  | String c s' =>
      if Ascii.eqb c sep then EmptyString :: split_on sep s'
      else match split_on sep s' with
           | x :: xs => String c x :: xs
           | [] => [String c EmptyString]
           end
  end.

Definition comma : ascii := ","%char.

(** [",".join(l)] *)
Definition join_comma (l : list string) : string := String.concat "," l.

(** ** TaskManager: queries *)

Section Queries.
Context `{Builtins}.

(** [search_tasks] *)
Definition search_tasks (keyword : string) (tasks : list Task) : list Task :=
  if negb (truthy keyword) then []
  else
    let keyword := lower keyword in
    List.filter (fun task => contains keyword (lower (title task))) tasks.

(** [filter_by_tag] *)
Definition filter_by_tag (tag : string) (tasks : list Task) : list Task :=
  List.filter (fun task => tag_in tag (tags task)) tasks.

(** [sorted(tasks, key=..., reverse=...)]: the stable sort, ascending in
    the key, or descending when [reverse] is set; tasks with equal keys
    keep their order in both directions.  Written as an insertion sort;
    the stable sort of a list under a total preorder is unique. *)
Fixpoint insert_sorted (le : Task → Task → bool) (x : Task) (l : list Task)
    : list Task :=
  match l with
  | [] => [x]
  | y :: l' => if le x y then x :: y :: l' else y :: insert_sorted le x l'
  end.

Definition sort_by (le : Task → Task → bool) (l : list Task) : list Task :=
  foldr (insert_sorted le) [] l.

Definition key_le {K} (leb : K → K → bool) (key : Task → K) (reverse : bool)
    (a b : Task) : bool :=
  if reverse then leb (key b) (key a) else leb (key a) (key b).

Definition sorted {K} (leb : K → K → bool) (key : Task → K) (reverse : bool)
    (l : list Task) : list Task :=
  sort_by (key_le leb key reverse) l.

(** [priority_order.get(p, 0)] for
    [priority_order = {"високий": 3, "середній": 2, "низький": 1, None: 0}] *)
Definition priority_order (p : option string) : Z :=
  match p with
  | None => 0
  | Some s =>
      if String.eqb s "високий" then 3
      else if String.eqb s "середній" then 2
      else if String.eqb s "низький" then 1
      else 0
  end.

Definition sentinel_date : string := "9999-99-99".

(** [t.due_date if t.due_date else "9999-99-99"] *)
Definition due_date_key (t : Task) : string :=
  match due_date t with
  | Some d => if truthy d then d else sentinel_date
  | None => sentinel_date
  end.

(** [sort_tasks]; [self_tasks] is the manager's collection, used when
    [tasks] is [None]. *)
Definition sort_tasks (self_tasks : list Task) (tasks : option (list Task))
    (by_ : string) (reverse : bool) : list Task :=
  let tasks := match tasks with Some l => l | None => self_tasks end in
  if String.eqb by_ "id" then sorted Z.leb task_id reverse tasks
  else if String.eqb by_ "title" then
    sorted String.leb (fun t => lower (title t)) reverse tasks
  else if String.eqb by_ "priority" then
    sorted Z.leb (fun t => priority_order (priority t)) reverse tasks
  else if String.eqb by_ "due_date" then
    sorted String.leb due_date_key reverse tasks
  else if String.eqb by_ "created_at" then
    sorted String.leb created_at reverse tasks
  else tasks.

End Queries.

(** ** Records: [to_dict] and [from_dict] *)

(** The values a task record holds. *)
Inductive value :=
  | VNone
  | VBool (b : bool)
  | VInt (n : Z)
  | VStr (s : string)
  | VList (l : list string).

(** What iterating over a parsed document yields: a JSON object (a
    [dict]), or anything else (a number, a string, a list, a key of a
    top-level object, ...), on which [data["title"]] raises. *)
Inductive element :=
  | EDict (d : gmap string value)
  | EOther.

(** A parsed JSON document, as [for task_data in data] sees it: the
    sequence of its elements (a list; an object iterates over its keys and
    a string over its characters), or a value that does not iterate. *)
Inductive json :=
  | JSeq (l : list element)
  | JScalar.

Inductive exn :=
  | FileNotFoundError
  | PermissionError
  | JSONDecodeError
  | KeyError
  | TypeError
  | StopIteration
  | CsvError
  | WriteError
  | KeyboardInterrupt.

(** [except Exception] catches every exception of the model but
    [KeyboardInterrupt], which derives from [BaseException] only.
    [WriteError] stands for what a write to an open file raises
    ([UnicodeEncodeError] for a string that cannot be encoded, [OSError]
    for a full device, [ValueError] for a number too long to print). *)
Definition is_Exception (e : exn) : bool :=
  match e with KeyboardInterrupt => false | _ => true end.

Definition is_KeyboardInterrupt (e : exn) : bool :=
  match e with KeyboardInterrupt => true | _ => false end.

Definition is_FileNotFoundError (e : exn) : bool :=
  match e with FileNotFoundError => true | _ => false end.

Inductive outcome (A : Type) :=
  | Ret (a : A)
  | Raise (e : exn).
Arguments Ret {A} a.
Arguments Raise {A} e.

#[global] Instance outcome_ret : MRet outcome := fun A a => Ret a.
#[global] Instance outcome_bind : MBind outcome := fun A B f m =>
  match m with Ret a => f a | Raise e => Raise e end.

Definition to_dict (t : Task) : gmap string value :=
  let task_dict : gmap string value :=
    <["id" := VInt (task_id t)]>
    (<["title" := VStr (title t)]>
    (<["completed" := VBool (completed t)]>
    (<["created_at" := VStr (created_at t)]>
    (<["tags" := VList (tags t)]> ∅)))) in
  let task_dict :=
    match priority t with
    | Some p => if truthy p then <["priority" := VStr p]> task_dict else task_dict
    | None => task_dict
    end in
  match due_date t with
  | Some d => if truthy d then <["due_date" := VStr d]> task_dict else task_dict
  | None => task_dict
  end.

(** [data[k]] *)
Definition getitem (data : gmap string value) (k : string) : outcome value :=
  match data !! k with
  | Some v => Ret v
  | None => Raise KeyError
  end.

(** The typed fields of [Task].  The source stores whatever value the
    record holds; a value of another type than the field's is outside the
    typed model of [Task] and is given as a [TypeError] here. *)
Definition as_int (v : value) : outcome Z :=
  match v with VInt n => Ret n | _ => Raise TypeError end.
Definition as_str (v : value) : outcome string :=
  match v with VStr s => Ret s | _ => Raise TypeError end.
Definition as_bool (v : value) : outcome bool :=
  match v with VBool b => Ret b | _ => Raise TypeError end.

(** [data.get(k)] for an optional text field: absent and [null] are [None]. *)
Definition get_opt_str (data : gmap string value) (k : string)
    : outcome (option string) :=
  match data !! k with
  | None | Some VNone => Ret None
  | Some (VStr s) => Ret (Some s)
  | Some _ => Raise TypeError
  end.

(** [data.get("tags", [])] *)
Definition get_tags (data : gmap string value) : outcome (list string) :=
  match data !! "tags" with
  | None => Ret []
  | Some (VList l) => Ret l
  | Some _ => Raise TypeError
  end.

(** [Task.from_dict].  The [created_at] that [__init__] reads from the
    clock is overwritten at once by the record's. *)
Definition from_dict (task_data : element) : outcome Task :=
  match task_data with
  | EOther => Raise TypeError
  | EDict data =>
      ttl ← getitem data "title" ≫= as_str;
      prio ← get_opt_str data "priority";
      due ← get_opt_str data "due_date";
      i ← getitem data "id" ≫= as_int;
      done ← getitem data "completed" ≫= as_bool;
      created ← getitem data "created_at" ≫= as_str;
      tgs ← get_tags data;
      mret (mkTask i ttl done created prio due tgs)
  end.

(** [[Task.from_dict(task_data) for task_data in data]] *)
Definition from_dicts (data : json) : outcome (list Task) :=
  match data with
  | JScalar => Raise TypeError
  | JSeq l => mapM from_dict l
  end.

(** [[task.to_dict() for task in self.tasks]] *)
Definition to_dicts (tasks : list Task) : json :=
  JSeq (map (fun task => EDict (to_dict task)) tasks).

(** ** Files and the libraries that read and write them *)

(** How a [csv.reader] ends after the rows it delivered: at the end of the
    file, or by raising (a field over the size limit, bytes that do not
    decode, a read error). *)
Inductive csv_end := EndOfFile | ReadError.

(** What writing to a file opened with ['w'] leaves in it: the whole
    text, or, when the write raises on the way, the part written before. *)
Inductive written (text : Type) :=
  | Written (t : text)
  | Failed (partial : text).
Arguments Written {text} t.
Arguments Failed {text} partial.

(** The size up to which the [csv] reader takes a field
    ([csv.field_size_limit()]). *)
Definition csv_field_limit : Z := 131072.

Fixpoint has_nul (s : string) : bool :=
  match s with
  | EmptyString => false
  | String c s' => Ascii.eqb c Ascii.zero || has_nul s'
  end.

(** Rows whose fields the [csv] reader takes: each shorter than the
    field size limit, and without a NUL character. *)
Definition csv_readable (rows : list (list string)) : Prop :=
  Forall (Forall (fun field =>
             Z.of_nat (String.length field) < csv_field_limit
             ∧ has_nul field = false)) rows.

(** The [json] and [csv] libraries over the text of a file.  [json_dump]
    and [csv_write] give what the write leaves in the file, whole or in
    part; [json_load] is [None] where [json.load] raises
    [JSONDecodeError]; [csv_read] gives the rows the reader delivers and
    how it ends.  A document written whole is read back; rows written
    whole are read back when the reader takes their fields. *)
Class Codec (text : Type) := {
  json_dump : json → written text;
  json_load : text → option json;
  csv_write : list (list string) → written text;
  csv_read : text → list (list string) * csv_end;
  json_load_dump : ∀ d t, json_dump d = Written t → json_load t = Some d;
  csv_read_write : ∀ rows t,
    csv_write rows = Written t → csv_readable rows →
    csv_read t = (rows, EndOfFile)
}.

(** A path of the file system: a file with its text, or a path that
    [open] refuses (no permission, a directory). A path absent from the
    map does not exist. *)
Inductive node (text : Type) :=
  | File (t : text)
  | Locked.
Arguments File {text} t.
Arguments Locked {text}.

Section Manager.
Context `{Builtins} {text : Type} `{Codec text}.

(** The manager ([self.tasks], [self.filename]) and its environment: the
    file system and the number of clock readings taken so far. *)
Record state := mkState {
  tasks : list Task;
  filename : string;
  disk : gmap string (node text);
  time : nat
}.

Definition set_tasks (l : list Task) (s : state) : state :=
  mkState l (filename s) (disk s) (time s).

Definition set_disk (d : gmap string (node text)) (s : state) : state :=
  mkState (tasks s) (filename s) d (time s).

(** An operation: from the state to its outcome and the state it leaves. *)
Definition M (A : Type) : Type := state → outcome A * state.

#[global] Instance M_ret : MRet M := fun A a s => (Ret a, s).
#[global] Instance M_bind : MBind M := fun A B f m s =>
  match m s with
  | (Ret a, s') => f a s'
  | (Raise e, s') => (Raise e, s')
  end.

Definition raise {A} (e : exn) : M A := fun s => (Raise e, s).

Definition lift {A} (o : outcome A) : M A := fun s => (o, s).

Definition get_tasks : M (list Task) := fun s => (Ret (tasks s), s).

Definition put_tasks (l : list Task) : M unit := fun s => (Ret tt, set_tasks l s).

(** [try: body except E: handler], for the exceptions [E] selects. *)
Definition try_except {A} (body : M A) (E : exn → bool) (handler : M A) : M A :=
  fun s =>
    match body s with
    | (Raise e, s') => if E e then handler s' else (Raise e, s')
    | r => r
    end.

(** [open(path, 'r')] and reading the text. *)
Definition open_read (path : string) : M text := fun s =>
  match disk s !! path with
  | None => (Raise FileNotFoundError, s)
  | Some Locked => (Raise PermissionError, s)
  | Some (File t) => (Ret t, s)
  end.

(** [with open(path, 'w') as file: ...write...]: [open] raises on a path
    it refuses and changes nothing; otherwise it creates or empties the
    file, and the write that follows leaves its text there, or raises and
    leaves the part it wrote. *)
Definition open_write (path : string) (w : written text) : M unit := fun s =>
  match disk s !! path with
  | Some Locked => (Raise PermissionError, s)
  | _ =>
      match w with
      | Written t => (Ret tt, set_disk (<[path := File t]> (disk s)) s)
      | Failed partial =>
          (Raise WriteError, set_disk (<[path := File partial]> (disk s)) s)
      end
  end.

(** [json.load(file)] *)
Definition json_load_file (t : text) : M json :=
  match json_load t with
  | Some d => mret d
  | None => raise JSONDecodeError
  end.

(** [load_tasks] *)
Definition load_tasks : M bool :=
  try_except
    (fun s =>
       (file ← open_read (filename s);
        data ← json_load_file file;
        l ← lift (from_dicts data);
        put_tasks l;;
        mret true) s)
    is_FileNotFoundError
    (mret false).

(** [save_tasks]: no handler, and no result. *)
Definition save_tasks : M unit := fun s =>
  open_write (filename s) (json_dump (to_dicts (tasks s))) s.

(** The manager's [add_task]: reads the clock, appends the task, and
    returns the task as its index in [self.tasks]. *)
Definition add_task_m (ttl : string) (prio due : option string) : M nat :=
  fun s =>
    let '(l, _) := add_task (strftime_now (time s)) ttl prio due (tasks s) in
    (Ret (length (tasks s)), mkState l (filename s) (disk s) (S (time s))).

(** A method call on the task at index [ref] of [self.tasks]. *)
Definition update_task (ref : nat) (f : Task → Task) : M unit := fun s =>
  (Ret tt, set_tasks (alter f ref (tasks s)) s).

(** [for x in l: body x] *)
Fixpoint for_each {A} (l : list A) (body : A → M unit) : M unit :=
  match l with
  | [] => mret tt
  | x :: l' => body x;; for_each l' body
  end.

(** One row of the CSV export. *)
Definition csv_header : list string :=
  ["ID"; "Назва"; "Статус"; "Пріоритет"; "Термін виконання"; "Створено"; "Теги"].

Definition str_of_int (n : Z) : string := NilZero.string_of_int (Z.to_int n).

Definition or_empty (o : option string) : string :=
  match o with
  | Some s => if truthy s then s else ""
  | None => ""
  end.

Definition csv_row (task : Task) : list string :=
  let status := if completed task then "Виконано" else "Активно" in
  [str_of_int (task_id task); title task; status; or_empty (priority task);
   or_empty (due_date task); created_at task; join_comma (tags task)].

(** What [export_tasks] runs inside its [try]. *)
Definition export_body (fname format : string) : M bool := fun s =>
  if String.eqb (lower format) "json" then
    (open_write fname (json_dump (to_dicts (tasks s)));; mret true) s
  else if String.eqb (lower format) "csv" then
    (open_write fname (csv_write (csv_header :: map csv_row (tasks s)));;
     mret true) s
  else (Ret false, s).

(** [export_tasks] *)
Definition export_tasks (fname format : string) : M bool :=
  try_except (export_body fname format) is_Exception (mret false).

(** The loop of the JSON import that renumbers the imported tasks. *)
Fixpoint renumber (next_id : Z) (imported : list Task) : list Task :=
  match imported with
  | [] => []
  | task :: l => set_id next_id task :: renumber (next_id + 1) l
  end.

(** The body of the loop over the rows of a CSV file. *)
Definition import_row (row : list string) : M unit :=
  if (6 <=? length row)%nat then
    let ttl := nth 1 row "" in
    let done := String.eqb (nth 2 row "") "Виконано" in
    let prio := if truthy (nth 3 row "") then Some (nth 3 row "") else None in
    let due := if truthy (nth 4 row "") then Some (nth 4 row "") else None in
    let tgs :=
      if (6 <? length row)%nat && truthy (nth 6 row "")
      then split_on comma (nth 6 row "") else [] in
    task ← add_task_m ttl prio due;
    (if done then update_task task mark_completed else mret tt);;
    for_each tgs (fun tag => update_task task (add_tag (strip tag)))
  else mret tt.

(** What ends an iteration over the reader. *)
Definition reader_end (fin : csv_end) : exn :=
  match fin with EndOfFile => StopIteration | ReadError => CsvError end.

(** [for row in reader: body row], for a reader that delivers [rows] and
    ends by [fin]. *)
Definition for_rows (rows : list (list string)) (fin : csv_end)
    (body : list string → M unit) : M unit :=
  for_each rows body;;
  match fin with
  | EndOfFile => mret tt
  | ReadError => raise CsvError
  end.

(** What [import_tasks] runs inside its [try]. *)
Definition import_body (fname format : string) : M bool :=
  if String.eqb (lower format) "json" then
    file ← open_read fname;
    data ← json_load_file file;
    imported_tasks ← lift (from_dicts data);
    current ← get_tasks;
    put_tasks (current ++ renumber (_generate_id current) imported_tasks);;
    mret true
  else if String.eqb (lower format) "csv" then
    file ← open_read fname;
    let '(rows, fin) := csv_read file in
    match rows with
    | [] => raise (reader_end fin)
    | headers :: rows => for_rows rows fin import_row;; mret true
    end
  else mret false.

(** [import_tasks] *)
Definition import_tasks (fname format : string) : M bool :=
  try_except (import_body fname format) is_Exception (mret false).

End Manager.

(** ** TaskManager: lookup, listing, statistics, deadlines *)

(** [get_task_by_id]: the first task with the identifier, or [None]. *)
Fixpoint get_task_by_id (i : Z) (tasks : list Task) : option Task :=
  match tasks with
  | [] => None
  | task :: l => if task_id task =? i then Some task else get_task_by_id i l
  end.

(** [task.priority == priority], for a [priority] that is a string. *)
Definition priority_is (p : string) (task : Task) : bool :=
  match priority task with
  | Some q => String.eqb q p
  | None => false
  end.

(** [list_tasks]: [status] is [None], [True] or [False]; the priority
    filters only when it is true as a condition ([None] and [""] do not
    filter). *)
Definition list_tasks (status : option bool) (prio : option string)
    (tasks : list Task) : list Task :=
  let filtered_tasks := tasks in
  let filtered_tasks :=
    match status with
    | Some st => List.filter (fun task => Bool.eqb (completed task) st) filtered_tasks
    | None => filtered_tasks
    end in
  match prio with
  | Some p =>
      if truthy p then List.filter (priority_is p) filtered_tasks
      else filtered_tasks
  | None => filtered_tasks
  end.

(** [sum(1 for task in tasks if cond(task))] *)
Definition sum_ones (cond : Task → bool) (tasks : list Task) : Z :=
  foldl (fun acc task => if cond task then acc + 1 else acc) 0 tasks.

(** The dictionary [get_statistics] returns, with its four keys. *)
Record statistics := mkStatistics {
  stat_total : Z;
  stat_completed : Z;
  stat_active : Z;
  stat_high_priority : Z
}.

(** [get_statistics] *)
Definition get_statistics (tasks : list Task) : statistics :=
  let total := Z.of_nat (length tasks) in
  let done := sum_ones completed tasks in
  let active := total - done in
  let high_priority :=
    sum_ones (fun task => negb (completed task) && priority_is "високий" task) tasks in
  mkStatistics total done active high_priority.

(** The calendar of the [datetime] library: the dates,
    [datetime.strptime(s, "%Y-%m-%d").date()] ([None] where it raises
    [ValueError]), and [(due - today).days]. *)
Class Calendar := {
  date : Type;
  strptime_date : string → option date;
  days_between : date → date → Z
}.

(** [sorted(l, key=...)] on any list, ascending and stable; the insertion
    sort as for the tasks. *)
Fixpoint insert_by {A} (le : A → A → bool) (x : A) (l : list A) : list A :=
  match l with
  | [] => [x]
  | y :: l' => if le x y then x :: y :: l' else y :: insert_by le x l'
  end.

Definition sorted_by_key {A} (key : A → Z) (l : list A) : list A :=
  foldr (insert_by (fun a b => key a <=? key b)) [] l.

(** The loop of [get_upcoming_tasks]: the pairs it appends, in the order
    of the tasks. *)
Fixpoint upcoming_pairs `{Calendar} (today : date) (days : Z)
    (tasks : list Task) : list (Task * Z) :=
  match tasks with
  | [] => []
  | task :: l =>
      if completed task || negb (truthy_opt (due_date task))
      then upcoming_pairs today days l
      else
        match due_date task ≫= strptime_date with
        | Some due =>
            let days_left := days_between due today in
            if (0 <=? days_left) && (days_left <=? days)
            then (task, days_left) :: upcoming_pairs today days l
            else upcoming_pairs today days l
        | None => upcoming_pairs today days l
        end
  end.

(** [get_upcoming_tasks]; [today] is [datetime.now().date()]. *)
Definition get_upcoming_tasks `{Calendar} (today : date) (days : Z)
    (tasks : list Task) : list (Task * Z) :=
  sorted_by_key snd (upcoming_pairs today days tasks).

(** ** Callers: the menu's "add" and the command line *)

Section Callers.
Context `{Builtins} {text : Type} `{Codec text}.

(** [complete_task] and [delete_task] on the manager. *)
Definition complete_task_m (i : Z) : @M text bool := fun s =>
  let '(l, found) := complete_task i (tasks s) in (Ret found, set_tasks l s).

Definition delete_task_m (i : Z) : @M text bool := fun s =>
  let '(l, found) := delete_task i (tasks s) in (Ret found, set_tasks l s).

(** [x if x else None] on a line read from the user. *)
Definition or_none (x : string) : option string :=
  if truthy x then Some x else None.

(** Choice "1" of [run_cli], from the four lines it reads to the task it
    adds. *)
Definition menu_add (ttl prio due tags_input : string) : @M text unit :=
  task ← add_task_m ttl (or_none prio) (or_none due);
  if truthy tags_input then
    let tgs := map strip (split_on comma tags_input) in
    for_each tgs (fun tag => update_task task (add_tag tag))
  else mret tt.

(** The parsed command line: the sub-command and its arguments. *)
Inductive command :=
  | CmdAdd (name : string) (prio due : option string)
  | CmdList (status prio : option string)
  | CmdComplete (i : Z)
  | CmdDelete (i : Z)
  | CmdStats
  | CmdNone.

(** [True if args.status == 'completed' else False if args.status ==
    'active' else None] *)
Definition status_filter (status : option string) : option bool :=
  match status with
  | Some st =>
      if String.eqb st "completed" then Some true
      else if String.eqb st "active" then Some false
      else None
  | None => None
  end.

(** [run_cli]: the manager loads its file and enters the menu.
    [menu_loop] is the [while True] loop, from its first prompt to the
    [break] of choice "0" or to the exception that ends it. *)
Definition run_cli (menu_loop : @M text unit) : @M text unit :=
  load_tasks;; menu_loop.

(** [interactive_mode]: [run_cli] on a new manager. *)
Definition interactive_mode (menu_loop : @M text unit) : @M text unit :=
  fun s0 => run_cli menu_loop (mkState [] "tasks.json" (disk s0) (time s0)).

(** A [KeyboardInterrupt] that arrives while [main] is inside its [try]:
    none, one before the call on the collection, or one after that call
    and before the save. *)
Inductive interrupt := NoInterrupt | InterruptBefore | InterruptAfter.

Definition interrupt_at (here ki : interrupt) : @M text unit :=
  match here, ki with
  | InterruptBefore, InterruptBefore | InterruptAfter, InterruptAfter =>
      raise KeyboardInterrupt
  | _, _ => mret tt
  end.

(** [main].  [argv] is [None] for a command line without arguments
    ([len(sys.argv) == 1]): [main] runs the menu and returns.  Otherwise
    it is the parsed command line ([CmdNone]: arguments, but no
    sub-command): a new manager on ["tasks.json"] loads, and inside the
    [try] runs the command and, for the commands that change the
    collection, saves; the handler of [KeyboardInterrupt] saves.  What
    [main] prints is not modelled. *)
Definition main (argv : option command) (menu_loop : @M text unit)
    (ki : interrupt) : @M text unit := fun s0 =>
  match argv with
  | None => interactive_mode menu_loop s0
  | Some args =>
      let manager := mkState [] "tasks.json" (disk s0) (time s0) in
      (load_tasks;;
       try_except
         (interrupt_at InterruptBefore ki;;
          match args with
          | CmdAdd name prio due =>
              add_task_m name prio due;;
              interrupt_at InterruptAfter ki;;
              save_tasks
          | CmdList status prio => interrupt_at InterruptAfter ki
          | CmdComplete i =>
              complete_task_m i;;
              interrupt_at InterruptAfter ki;;
              save_tasks
          | CmdDelete i =>
              delete_task_m i;;
              interrupt_at InterruptAfter ki;;
              save_tasks
          | CmdStats => interrupt_at InterruptAfter ki
          | CmdNone => interrupt_at InterruptAfter ki
          end)
         is_KeyboardInterrupt
         save_tasks) manager
  end.

End Callers.

(** ** Notions the properties are stated with *)

(** [needle] occurs in [hay] as a substring. *)
Definition occurs_in (needle hay : string) : Prop :=
  ∃ pre post, hay = pre +:+ needle +:+ post.

(** [selects P l r]: [r] is [l] with exactly the tasks that satisfy [P]
    kept, in their order. *)
Inductive selects (P : Task → Prop) : list Task → list Task → Prop :=
  | selects_nil : selects P [] []
  | selects_keep t l r : P t → selects P l r → selects P (t :: l) (t :: r)
  | selects_drop t l r : ¬ P t → selects P l r → selects P (t :: l) r.

(** The three labels [priority_order] ranks above 0. *)
Definition recognized (p : string) : bool :=
  String.eqb p "високий" || String.eqb p "середній" || String.eqb p "низький".

(** The task with a priority outside the three labels taken away. *)
Definition without_unrecognized (t : Task) : Task :=
  match priority t with
  | Some p =>
      if recognized p then t
      else mkTask (task_id t) (title t) (completed t) (created_at t) None
             (due_date t) (tags t)
  | None => t
  end.

(** A task has a due date, and one below the sentinel (as every date
    written [YYYY-MM-DD] is). *)
Definition dated (t : Task) : Prop :=
  ∃ d, due_date t = Some d ∧ truthy d = true ∧ String.ltb d sentinel_date = true.

(** A task has no due date ([None], or the empty string). *)
Definition undated (t : Task) : Prop := truthy_opt (due_date t) = false.

(** No task with a due date stands after a task without one. *)
Definition undated_last (l : list Task) : Prop :=
  ∀ pre a post b, l = pre ++ a :: post → undated a → b ∈ post → ¬ dated b.

(** No task with a due date stands before a task without one. *)
Definition undated_first (l : list Task) : Prop :=
  ∀ pre a post b, l = pre ++ a :: post → undated a → b ∈ pre → ¬ dated b.

(** The identifiers [g], [g + 1], ..., [g + n - 1]. *)
Fixpoint ids_from (g : Z) (n : nat) : list Z :=
  match n with
  | O => []
  | S n' => g :: ids_from (g + 1) n'
  end.

(** A computation raises nothing but [KeyError] and [TypeError]. *)
Definition raises_lookup {A} (m : outcome A) : Prop :=
  ∀ e, m = Raise e → e = KeyError ∨ e = TypeError.

(** The task that the body of the CSV import loop leaves at the end of
    the collection for a row of at least six columns: the task
    [add_task] made, with the methods called on it afterwards. *)
Definition task_of_row `{Builtins} (i : Z) (now : string) (row : list string)
    : Task :=
  let prio := if truthy (nth 3 row "") then Some (nth 3 row "") else None in
  let due := if truthy (nth 4 row "") then Some (nth 4 row "") else None in
  let tgs :=
    if (6 <? length row)%nat && truthy (nth 6 row "")
    then split_on comma (nth 6 row "") else [] in
  let task := new_task i now (nth 1 row "") prio due in
  let task :=
    if String.eqb (nth 2 row "") "Виконано" then mark_completed task else task in
  foldl (fun task tag => add_tag (strip tag) task) task tgs.

(** The tasks the loop adds for the rows, from the identifier [next_id]
    and the clock reading [n] on. *)
Fixpoint tasks_of_rows `{Builtins} (next_id : Z) (n : nat)
    (rows : list (list string)) : list Task :=
  match rows with
  | [] => []
  | row :: rows' =>
      if (6 <=? length row)%nat
      then task_of_row next_id (strftime_now n) row
             :: tasks_of_rows (next_id + 1) (S n) rows'
      else tasks_of_rows next_id n rows'
  end.

(** The state after the CSV import loop has run over the rows. *)
Definition after_rows `{Builtins} {text : Type} (rows : list (list string))
    (s : @state text) : @state text :=
  let imported := tasks_of_rows (_generate_id (tasks s)) (time s) rows in
  mkState (tasks s ++ imported) (filename s) (disk s)
    (time s + length imported)%nat.

Fixpoint has_comma (s : string) : bool :=
  match s with
  | EmptyString => false
  | String c s' => Ascii.eqb c comma || has_comma s'
  end.

(** Tags that the CSV export and import give back as they are: no
    duplicate, and each tag not empty, without a comma, and without white
    space around it. *)
Definition csv_safe_tags `{Builtins} (l : list string) : Prop :=
  NoDup l ∧ Forall (fun tag => tag ≠ "" ∧ has_comma tag = false ∧ strip tag = tag) l.

(** Neither optional field holds the empty string. *)
Definition no_empty_field (t : Task) : Prop :=
  priority t ≠ Some "" ∧ due_date t ≠ Some "".

(** [t'] is [t] under another identifier: every other field is as it
    was. *)
Definition same_but_id (t t' : Task) : Prop := t' = set_id (task_id t') t.


(** The rows of a CSV file that the import makes tasks of. *)
Definition long_rows (rows : list (list string)) : list (list string) :=
  List.filter (fun row => (6 <=? length row)%nat) rows.

(** [t'] is the task of the row: the title, the completion, the priority
    and the due date are read from the columns 1 to 4, and the task is
    the one [task_of_row] gives at some reading of the clock. *)
Definition task_of_columns `{Builtins} (row : list string) (t' : Task) : Prop :=
  title t' = nth 1 row ""
  ∧ completed t' = String.eqb (nth 2 row "") "Виконано"
  ∧ priority t' = or_none (nth 3 row "")
  ∧ due_date t' = or_none (nth 4 row "")
  ∧ ∃ n, t' = task_of_row (task_id t') (strftime_now n) row.

(** ** A codec and built-ins to run the definitions *)

(** A text that remembers which library wrote it, and what.  For the
    other library it is an undecodable document, or a file without rows. *)
Inductive tagged_text :=
  | JsonText (d : json)
  | CsvText (rows : list (list string)) (fin : csv_end).

Definition tagged_json_load (t : tagged_text) : option json :=
  match t with JsonText d => Some d | CsvText _ _ => None end.

Definition tagged_csv_read (t : tagged_text) : list (list string) * csv_end :=
  match t with
  | CsvText rows fin => (rows, fin)
  | JsonText _ => ([], EndOfFile)
  end.

#[global, refine] Instance tagged_codec : Codec tagged_text := {|
  json_dump d := Written (JsonText d);
  json_load := tagged_json_load;
  csv_write rows := Written (CsvText rows EndOfFile);
  csv_read := tagged_csv_read
|}.
Proof.
  - by intros d t [= <-].
  - by intros rows t [= <-] _.
Defined.

(** The same libraries on a device that takes no write: every write
    raises and leaves the file empty. *)
Definition empty_file : tagged_text := CsvText [] EndOfFile.

Definition full_device_codec : Codec tagged_text.
Proof.
  refine {| json_dump := fun _ => Failed empty_file;
            json_load := tagged_json_load;
            csv_write := fun _ => Failed empty_file;
            csv_read := tagged_csv_read |}.
  - intros d t Hw. discriminate Hw.
  - intros rows t Hw. discriminate Hw.
Defined.

(** The built-ins on ASCII text, and a clock that stands still. *)
Definition test_builtins : Builtins :=
  ascii_builtins (fun _ => "2025-06-01 12:00:00").

(** ** Collections and managers to run the definitions on *)

(** The scenario of the specification: two tasks added to an empty
    collection. *)
Definition two_tasks : list Task :=
  let l1 := fst (add_task "2025-01-01 10:00:00" "Buy milk" (Some "high")
                   (Some "2099-01-01") []) in
  fst (add_task "2025-01-01 10:00:01" "Clean" None None l1).

(** ... after the first, respectively the second, was deleted. *)
Definition first_deleted : list Task := fst (delete_task 1 two_tasks).
Definition last_deleted : list Task := fst (delete_task 2 two_tasks).

(** Three tasks with the identifiers 1, 2 and 3. *)
Definition three_tasks : list Task :=
  fst (add_task "2025-01-01 10:00:02" "Pay bills" None None two_tasks).

(** Two tasks for the sort by due date. *)
Definition dated_task : Task :=
  mkTask 1 "Buy milk" false "2025-01-01 10:00:00" None (Some "2099-01-01") [].
Definition undated_task : Task :=
  mkTask 2 "Clean" false "2025-01-01 10:00:01" None None [].

(** Four tasks for the sort by priority: a priority outside the three
    labels, the highest label, no priority, the lowest label. *)
Definition priority_tasks : list Task :=
  [ mkTask 1 "Buy milk" false "2025-01-01 10:00:00" (Some "urgent") None [];
    mkTask 2 "Clean" false "2025-01-01 10:00:01" (Some "високий") None [];
    mkTask 3 "Pay bills" false "2025-01-01 10:00:02" None None [];
    mkTask 4 "Call mum" false "2025-01-01 10:00:03" (Some "низький") None [] ].

(** A CSV file of a header and two rows, in the working directory of a
    manager that holds [three_tasks]. *)
Definition two_rows : list (list string) :=
  [ ["7"; "Water plants"; "Активно"; "low"; ""; "2024-05-05 08:00:00"; "home, garden"];
    ["9"; "Call mum"; "Виконано"; ""; "2099-02-02"; "2024-05-06 08:00:00"; ""] ].

Definition state_with_csv : @state tagged_text :=
  mkState three_tasks "tasks.json"
    {[ "in.csv" := File (CsvText (csv_header :: two_rows) EndOfFile) ]} 0.

(** The same file with a second data row that the reader cannot deliver
    (a field over the field size limit of [csv], say): the reader
    delivers the header and the first data row, and then raises. *)
Definition state_with_broken_csv : @state tagged_text :=
  mkState three_tasks "tasks.json"
    {[ "in.csv" := File (CsvText (csv_header :: take 1 two_rows) ReadError) ]} 0.

(** A JSON file that holds the records of [two_tasks], in the working
    directory of a manager that holds [three_tasks]. *)
Definition state_with_json : @state tagged_text :=
  mkState three_tasks "tasks.json"
    {[ "in.json" := File (JsonText (to_dicts two_tasks)) ]} 0.



(** A task with a tag twice in its tags, and the record it loads from. *)
Definition duplicate_tag_task : Task :=
  mkTask 1 "Buy milk" false "2025-01-01 10:00:00" None None ["work"; "work"].

Definition duplicate_tag_record : gmap string value :=
  to_dict duplicate_tag_task.

(** A manager whose backing file cannot be opened. *)
Definition state_locked : @state tagged_text :=
  mkState two_tasks "tasks.json" {[ "tasks.json" := Locked ]} 0.

(** A manager on an empty file system. *)
Definition state_fresh : @state tagged_text :=
  mkState two_tasks "tasks.json" ∅ 0.

(** A manager whose task holds the empty string as its priority, and a
    manager whose task has a tag with a comma in it. *)
Definition state_empty_priority : @state tagged_text :=
  mkState [mkTask 1 "Buy milk" false "2025-01-01 10:00:00" (Some "") None []]
    "tasks.json" ∅ 0.

Definition state_comma_tag : @state tagged_text :=
  mkState [mkTask 1 "Buy milk" false "2025-01-01 10:00:00" None None ["a,b"]]
    "tasks.json" ∅ 0.

(** ** Notions for the properties of the remaining operations *)

(** No two tasks of the collection have the same identifier; every
    identifier is positive. *)
Definition unique_ids (l : list Task) : Prop := NoDup (map task_id l).
Definition positive_ids (l : list Task) : Prop := Forall (fun t => 1 ≤ task_id t) l.

(** A call of [add_task], [complete_task] or [delete_task], and a
    sequence of such calls run on a collection. *)
Inductive op :=
  | OpAdd (now ttl : string) (prio due : option string)
  | OpComplete (i : Z)
  | OpDelete (i : Z).

Definition apply_op (l : list Task) (o : op) : list Task :=
  match o with
  | OpAdd now ttl prio due => fst (add_task now ttl prio due l)
  | OpComplete i => fst (complete_task i l)
  | OpDelete i => fst (delete_task i l)
  end.

Definition run_ops (ops : list op) (l : list Task) : list Task :=
  foldl apply_op l ops.

(** An optional field as a record keeps it: the empty string is dropped. *)
Definition drop_empty (o : option string) : option string :=
  match o with
  | Some x => if truthy x then Some x else None
  | None => None
  end.

Definition drop_empty_fields (t : Task) : Task :=
  mkTask (task_id t) (title t) (completed t) (created_at t)
    (drop_empty (priority t)) (drop_empty (due_date t)) (tags t).

(** The first task of [l] with the identifier [i] is [t], between [pre]
    and [post]. *)
Definition first_with_id (i : Z) (l pre : list Task) (t : Task)
    (post : list Task) : Prop :=
  l = pre ++ t :: post ∧ task_id t = i ∧ Forall (fun x => task_id x ≠ i) pre.

(** The key [sort_tasks] sorts by under each criterion, a number or a
    string, and the order on the keys. *)
Definition sort_key `{Builtins} (by_ : string) (t : Task) : Z + string :=
  if String.eqb by_ "id" then inl (task_id t)
  else if String.eqb by_ "title" then inr (lower (title t))
  else if String.eqb by_ "priority" then inl (priority_order (priority t))
  else if String.eqb by_ "due_date" then inr (due_date_key t)
  else if String.eqb by_ "created_at" then inr (created_at t)
  else inl 0.

Definition key_leb (x y : Z + string) : bool :=
  match x, y with
  | inl a, inl b => a <=? b
  | inr a, inr b => String.leb a b
  | _, _ => true
  end.

(** The criteria [sort_tasks] knows. *)
Definition known_criterion (by_ : string) : bool :=
  String.eqb by_ "id" || String.eqb by_ "title" || String.eqb by_ "priority"
  || String.eqb by_ "due_date" || String.eqb by_ "created_at".

(** ** A calendar to run the definitions *)

(** Dates as day numbers, read from the form [YYYY-MM-DD] with four, two
    and two digits (the form the manager asks for; [strptime] also takes
    a month or a day of one digit). *)
Definition digit_of (c : ascii) : option Z :=
  let n := Z.of_nat (nat_of_ascii c) in
  if (48 <=? n) && (n <=? 57) then Some (n - 48) else None.

Definition leap_year (y : Z) : bool :=
  ((y mod 4 =? 0) && negb (y mod 100 =? 0)) || (y mod 400 =? 0).

Definition days_in_month (y m : Z) : Z :=
  if m =? 2 then (if leap_year y then 29 else 28)
  else if (m =? 4) || (m =? 6) || (m =? 9) || (m =? 11) then 30
  else 31.

(** The number of the day [y]-[m]-[d], counted from 1970-01-01. *)
Definition day_number (y m d : Z) : Z :=
  let y' := if m <=? 2 then y - 1 else y in
  let era := y' / 400 in
  let yoe := y' - era * 400 in
  let doy := (153 * (if 2 <? m then m - 3 else m + 9) + 2) / 5 + d - 1 in
  let doe := yoe * 365 + yoe / 4 - yoe / 100 + doy in
  era * 146097 + doe - 719468.

Definition parse_iso_date (s : string) : option Z :=
  match s with
  | String y1 (String y2 (String y3 (String y4 (String sep1
      (String m1 (String m2 (String sep2
        (String d1 (String d2 EmptyString))))))))) =>
      if Ascii.eqb sep1 "-" && Ascii.eqb sep2 "-" then
        a ← digit_of y1; b ← digit_of y2; c ← digit_of y3; e ← digit_of y4;
        f ← digit_of m1; g ← digit_of m2; h ← digit_of d1; i ← digit_of d2;
        let y := 1000 * a + 100 * b + 10 * c + e in
        let m := 10 * f + g in
        let d := 10 * h + i in
        if (1 <=? y) && (1 <=? m) && (m <=? 12) && (1 <=? d)
           && (d <=? days_in_month y m)
        then Some (day_number y m d) else None
      else None
  | _ => None
  end.

Definition iso_calendar : Calendar :=
  {| date := Z; strptime_date := parse_iso_date;
     days_between due today := due - today |}.

(** Four tasks for the deadlines, seen on 2025-06-01: due in five days,
    completed, due today, and with a due date that is no date. *)
Definition deadline_tasks : list Task :=
  [ mkTask 1 "Buy milk" false "2025-01-01 10:00:00" None (Some "2025-06-06") [];
    mkTask 2 "Clean" true "2025-01-01 10:00:01" None (Some "2025-06-02") [];
    mkTask 3 "Pay bills" false "2025-01-01 10:00:02" None (Some "2025-06-01") [];
    mkTask 4 "Call mum" false "2025-01-01 10:00:03" None (Some "soon") [] ].

Definition june_first : Z := day_number 2025 6 1.

(** A task as the CSV import and the menu make it: no optional field
    holds the empty string, and the tags hold no duplicate and no empty
    tag. *)
Definition clean_task (t : Task) : Prop :=
  no_empty_field t ∧ NoDup (tags t) ∧ "" ∉ tags t.

(** The fields a CSV export and import carry over. *)
Definition carried_over (t t' : Task) : Prop :=
  title t' = title t ∧ completed t' = completed t
  ∧ priority t' = drop_empty (priority t)
  ∧ due_date t' = drop_empty (due_date t).

(** The collection that the backing file of a new manager holds: the
    empty one when there is no file, and otherwise the one its document
    loads as. *)
Definition file_holds {text : Type} `{Codec text}
    (d : gmap string (node text)) (l : list Task) : Prop :=
  (d !! "tasks.json" = None ∧ l = [])
  ∨ ∃ file data, d !! "tasks.json" = Some (File file)
      ∧ json_load file = Some data ∧ from_dicts data = Ret l.


(** * Properties *)

(** ** Tags *)

Lemma tag_in_elem_of (tag : string) (l : list string) :
  tag_in tag l = true ↔ tag ∈ l.
Proof.
  unfold tag_in. rewrite existsb_exists. split.
  - intros (x & Hx & Heq). apply String.eqb_eq in Heq. subst x.
    by apply list_elem_of_In.
  - intros Hin. exists tag. split; [by apply list_elem_of_In|apply String.eqb_refl].
Qed.

Lemma truthy_nonempty (s : string) : truthy s = true ↔ s ≠ "".
Proof.
  unfold truthy. destruct (String.eqb_spec s ""); simpl; split; congruence.
Qed.

Lemma add_tag_list_skip (tag : string) (l : list string) :
  tag = "" ∨ tag ∈ l → add_tag_list tag l = l.
Proof.
  unfold add_tag_list. intros [->|Hin]; [done|].
  apply tag_in_elem_of in Hin. rewrite Hin. by rewrite andb_false_r.
Qed.

Lemma add_tag_list_append (tag : string) (l : list string) :
  tag ≠ "" → tag ∉ l → add_tag_list tag l = l ++ [tag].
Proof.
  unfold add_tag_list. intros Hne Hnin.
  apply truthy_nonempty in Hne. rewrite Hne.
  destruct (tag_in tag l) eqn:E; [|done].
  apply tag_in_elem_of in E. contradiction.
Qed.

Lemma add_tag_list_case (tag : string) (l : list string) :
  add_tag_list tag l = if decide (tag = "" ∨ tag ∈ l) then l else l ++ [tag].
Proof.
  case_decide as Hd.
  - by apply add_tag_list_skip.
  - apply add_tag_list_append; tauto.
Qed.

Lemma add_tag_list_idem (tag : string) (l : list string) :
  add_tag_list tag (add_tag_list tag l) = add_tag_list tag l.
Proof.
  rewrite (add_tag_list_case tag l). case_decide as Hd.
  - by apply add_tag_list_skip.
  - apply add_tag_list_skip. right. set_solver.
Qed.

Lemma add_tag_list_NoDup (tag : string) (l : list string) :
  NoDup l → NoDup (add_tag_list tag l).
Proof.
  intros Hl. rewrite add_tag_list_case. case_decide as Hd; [done|].
  apply NoDup_app. split; [done|]. split; [|apply NoDup_singleton].
  intros x Hx Hx'. apply list_elem_of_singleton in Hx'. subst x. tauto.
Qed.

Lemma add_tags_NoDup (l : list string) (t : Task) :
  NoDup (tags t) → NoDup (tags (foldl (fun t tag => add_tag tag t) t l)).
Proof.
  revert t. induction l as [|tag l IH]; intros t Ht; simpl; [done|].
  apply IH. simpl. by apply add_tag_list_NoDup.
Qed.

Lemma count_occ_NoDup_elem (x : string) (l : list string) :
  NoDup l → x ∈ l → count_occ string_dec l x = 1%nat.
Proof.
  intros Hl Hx. apply list_elem_of_In in Hx.
  apply NoDup_ListNoDup in Hl.
  pose proof (proj1 (List.NoDup_count_occ string_dec l) Hl x) as Hle.
  apply (count_occ_In string_dec) in Hx. unfold gt in Hx.
  apply Nat.le_antisymm; [exact Hle|exact Hx].
Qed.

(** C8.  [add_tag] leaves the task as it is when the tag is empty or
    already among the task's tags, and otherwise appends the tag to them;
    it is idempotent; it keeps a list of tags free of duplicates, so that
    the tags of a task built from a new task by [add_tag] alone never hold
    a duplicate; and a non-empty tag added twice to tags without duplicates
    occurs exactly once.  ("Empty/blank" is the empty string, the one tag
    that is false for [if tag].) *)
Theorem add_tag_idempotent_no_duplicates (tag : string) (t : Task) :
  add_tag tag t
    = (if decide (tag = "" ∨ tag ∈ tags t) then t
       else set_tags (tags t ++ [tag]) t)
  ∧ add_tag tag (add_tag tag t) = add_tag tag t
  ∧ (NoDup (tags t) → NoDup (tags (add_tag tag t)))
  ∧ (∀ i now ttl prio due (l : list string),
       NoDup (tags (foldl (fun t tag => add_tag tag t)
                      (new_task i now ttl prio due) l)))
  ∧ (tag ≠ "" → NoDup (tags t) →
       count_occ string_dec (tags (add_tag tag (add_tag tag t))) tag = 1%nat).
Proof.
  split; [|split; [|split; [|split]]].
  - unfold add_tag. rewrite add_tag_list_case.
    case_decide; [by destruct t|done].
  - unfold add_tag. simpl. by rewrite add_tag_list_idem.
  - apply add_tag_list_NoDup.
  - intros. apply add_tags_NoDup. simpl. apply NoDup_nil_2.
  - intros Hne Hnd. unfold add_tag. simpl. rewrite add_tag_list_idem.
    apply count_occ_NoDup_elem; [by apply add_tag_list_NoDup|].
    rewrite add_tag_list_case. case_decide as Hd; [|set_solver].
    destruct Hd; [contradiction|done].
Qed.

Lemma add_tag_idempotent_no_duplicates_witness :
  "work" ≠ "" ∧ NoDup (tags (new_task 1 "2025-01-01 10:00:00" "Buy milk" None None))
  ∧ count_occ string_dec
      (tags (add_tag "work" (add_tag "work"
         (new_task 1 "2025-01-01 10:00:00" "Buy milk" None None)))) "work" = 1%nat.
Proof.
  assert (Hne : "work" ≠ "") by discriminate.
  assert (Hnd : NoDup (tags (new_task 1 "2025-01-01 10:00:00" "Buy milk" None None)))
    by (simpl; apply NoDup_nil_2).
  split; [exact Hne|]. split; [exact Hnd|].
  exact (proj2 (proj2 (proj2 (proj2
    (add_tag_idempotent_no_duplicates "work"
       (new_task 1 "2025-01-01 10:00:00" "Buy milk" None None))))) Hne Hnd).
Defined.

(** C8, as stated, fails.  A tag of white space only is appended, though
    the claim excludes blank tags.  And a record whose tag list names a
    tag twice loads with both: the task has a duplicate, and adding the
    tag again leaves the two there. *)
Lemma add_tag_blank_and_loaded_duplicate :
  tags (add_tag " " (new_task 1 "2025-01-01 10:00:00" "Buy milk" None None))
    = [" "]
  ∧ from_dict (EDict duplicate_tag_record) = Ret duplicate_tag_task
  ∧ tags duplicate_tag_task = ["work"; "work"]
  ∧ count_occ string_dec
      (tags (add_tag "work" (add_tag "work" duplicate_tag_task))) "work"
    = 2%nat.
Proof. repeat split; vm_compute; reflexivity. Qed.

(** A tag of white space only is not the empty string: it is appended. *)
Example add_tag_whitespace :
  tags (add_tag " " (new_task 1 "2025-01-01 10:00:00" "Buy milk" None None)) = [" "].
Proof. reflexivity. Qed.

(** ** Identifiers *)

Lemma max_id_fold (m : Z) (l : list Task) :
  m ≤ foldl (fun m x => Z.max m (task_id x)) m l
  ∧ (∀ x, x ∈ l → task_id x ≤ foldl (fun m x => Z.max m (task_id x)) m l)
  ∧ (foldl (fun m x => Z.max m (task_id x)) m l = m
     ∨ ∃ x, x ∈ l ∧ foldl (fun m x => Z.max m (task_id x)) m l = task_id x).
Proof.
  revert m. induction l as [|y l IH]; intros m; simpl.
  - split; [lia|]. split; [|by left]. intros x Hx. by apply elem_of_nil in Hx.
  - destruct (IH (Z.max m (task_id y))) as (Hge & Hall & Hwit).
    split; [lia|]. split.
    + intros x Hx. apply elem_of_cons in Hx as [->|Hx]; [lia|by apply Hall].
    + destruct Hwit as [Heq|(x & Hx & Heq)].
      * destruct (Z.max_spec m (task_id y)) as [[_ Hm]|[_ Hm]].
        -- right. exists y. split; [apply list_elem_of_here|congruence].
        -- left. congruence.
      * right. exists x. split; [by apply list_elem_of_further|done].
Qed.

(** The generated identifier is above every identifier of the collection. *)
Lemma generate_id_above (l : list Task) (t : Task) :
  t ∈ l → task_id t < _generate_id l.
Proof.
  destruct l as [|t0 l]; [intros Hin; by apply elem_of_nil in Hin|].
  intros Hin. simpl. unfold max_id.
  destruct (max_id_fold (task_id t0) l) as (Hge & Hall & _).
  apply elem_of_cons in Hin as [->|Hin]; [lia|].
  specialize (Hall _ Hin). lia.
Qed.

(** On a collection that is not empty it is one more than an identifier
    of the collection. *)
Lemma generate_id_attained (l : list Task) :
  l ≠ [] → ∃ t, t ∈ l ∧ _generate_id l = 1 + task_id t.
Proof.
  destruct l as [|t0 l]; [done|]. intros _. simpl. unfold max_id.
  destruct (max_id_fold (task_id t0) l) as (_ & _ & [Heq|(x & Hx & Heq)]).
  - exists t0. split; [apply list_elem_of_here|lia].
  - exists x. split; [by apply list_elem_of_further|lia].
Qed.

Lemma generate_id_snoc (l : list Task) (t : Task) :
  task_id t = _generate_id l → _generate_id (l ++ [t]) = task_id t + 1.
Proof.
  intros Ht.
  destruct (generate_id_attained (l ++ [t])) as (x & Hx & Heq).
  { by destruct l. }
  assert (Hab : task_id t < _generate_id (l ++ [t])).
  { apply generate_id_above. apply elem_of_app. right. apply list_elem_of_here. }
  apply elem_of_app in Hx as [Hx|Hx].
  - apply generate_id_above in Hx. lia.
  - apply list_elem_of_singleton in Hx. subst x. lia.
Qed.

(** C1, as the code has it.  [add_task] appends a task whose identifier
    is 1 on the empty collection and otherwise one more than the largest
    identifier of the collection, hence above every identifier there.  A
    deleted identifier is therefore not given again while a task with an
    identifier at least as large remains, and once the collection is empty
    the identifiers start again at 1. *)
Theorem add_task_id_max_plus_one (now ttl : string) (prio due : option string)
    (l : list Task) :
  let '(l', task) := add_task now ttl prio due l in
  l' = l ++ [task]
  ∧ task = new_task (task_id task) now ttl prio due
  ∧ (l = [] → task_id task = 1)
  ∧ (l ≠ [] → ∃ t, t ∈ l ∧ task_id task = 1 + task_id t)
  ∧ (∀ t, t ∈ l → task_id t < task_id task)
  ∧ (∀ i l0, delete_task i l0 = (l, true) →
       (∃ t, t ∈ l ∧ i ≤ task_id t) → task_id task ≠ i).
Proof.
  simpl. split; [done|]. split; [done|]. split; [by intros ->|].
  split; [apply generate_id_attained|]. split; [intros t; apply generate_id_above|].
  intros i l0 _ (t & Ht & Hle). apply generate_id_above in Ht. lia.
Qed.

Lemma add_task_id_max_plus_one_witness :
  delete_task 1 two_tasks = (first_deleted, true)
  ∧ (∃ t, t ∈ first_deleted ∧ 1 ≤ task_id t)
  ∧ task_id (snd (add_task "2025-01-01 10:00:02" "Pay bills" None None
                    first_deleted)) ≠ 1.
Proof.
  assert (Hdel : delete_task 1 two_tasks = (first_deleted, true)) by reflexivity.
  assert (Hrem : ∃ t, t ∈ first_deleted ∧ 1 ≤ task_id t).
  { exists (new_task 2 "2025-01-01 10:00:01" "Clean" None None).
    split; [apply list_elem_of_here|simpl; lia]. }
  split; [exact Hdel|]. split; [exact Hrem|].
  exact (proj2 (proj2 (proj2 (proj2 (proj2
    (add_task_id_max_plus_one "2025-01-01 10:00:02" "Pay bills" None None
       first_deleted))))) 1 two_tasks Hdel Hrem).
Defined.

(** The scenario of the specification: identifiers 1 and 2, then, with 1
    deleted, 3; and 1 again once every task is deleted. *)
Example scenario_ids :
  map task_id two_tasks = [1; 2]
  ∧ map task_id first_deleted = [2]
  ∧ task_id (snd (add_task "2025-01-01 10:00:02" "Pay bills" None None
                    first_deleted)) = 3
  ∧ fst (delete_task 2 first_deleted) = []
  ∧ task_id (snd (add_task "2025-01-01 10:00:02" "Pay bills" None None
                    (fst (delete_task 2 first_deleted)))) = 1.
Proof. repeat split; reflexivity. Qed.

(** C1, as stated, fails: after the task with the largest identifier is
    deleted, the next task gets that identifier again although a task
    remains. *)
Lemma deleted_last_id_is_reused :
  delete_task 2 two_tasks = (last_deleted, true)
  ∧ last_deleted ≠ []
  ∧ task_id (snd (add_task "2025-01-01 10:00:02" "Pay bills" None None
                    last_deleted)) = 2.
Proof. split; [reflexivity|]. split; [discriminate|reflexivity]. Qed.

(** ** Search *)

Lemma is_prefix_spec (p s : string) :
  is_prefix p s = true ↔ ∃ r, s = p +:+ r.
Proof.
  revert s. induction p as [|a p IH]; intros s; simpl.
  - split; [intros _; by exists s|done].
  - destruct s as [|b s].
    + split; [done|]. intros (r & Hr). discriminate.
    + rewrite andb_true_iff, IH. split.
      * intros (Hab & r & ->). apply Ascii.eqb_eq in Hab. subst b. by exists r.
      * intros (r & Hr). injection Hr as -> ->. split; [apply Ascii.eqb_refl|by exists r].
Qed.

Lemma contains_spec (needle hay : string) :
  contains needle hay = true ↔ occurs_in needle hay.
Proof.
  unfold occurs_in. induction hay as [|c hay IH]; simpl.
  - rewrite orb_false_r, is_prefix_spec. split.
    + intros (r & Hr). by exists "", r.
    + intros (pre & post & Hr). destruct pre; [by exists post|discriminate].
  - rewrite orb_true_iff, is_prefix_spec, IH. split.
    + intros [(r & Hr)|(pre & post & Hr)].
      * by exists "", r.
      * exists (String c pre), post. simpl. by rewrite Hr.
    + intros (pre & post & Hr). destruct pre as [|c' pre]; simpl in Hr.
      * left. by exists post.
      * right. injection Hr as -> ->. by exists pre, post.
Qed.

Lemma filter_selects (f : Task → bool) (P : Task → Prop) (l : list Task) :
  (∀ t, f t = true ↔ P t) → selects P l (List.filter f l).
Proof.
  intros Hf. induction l as [|t l IH]; simpl; [constructor|].
  destruct (f t) eqn:E.
  - apply selects_keep; [by apply Hf|done].
  - apply selects_drop; [|done]. rewrite <-Hf. congruence.
Qed.

Lemma selects_none (P : Task → Prop) (l : list Task) :
  (∀ t, ¬ P t) → selects P l [].
Proof.
  intros HP. induction l as [|t l IH]; [constructor|].
  apply selects_drop; [apply HP|done].
Qed.

(** C9.  [search_tasks] keeps, in their order, exactly the tasks whose
    lower-cased title has the lower-cased keyword as a substring, when the
    keyword is not empty; for the empty keyword it returns no task. *)
Theorem search_tasks_substring `{Builtins} (keyword : string) (l : list Task) :
  selects (fun t => keyword ≠ "" ∧ occurs_in (lower keyword) (lower (title t)))
    l (search_tasks keyword l)
  ∧ search_tasks "" l = [].
Proof.
  split; [|done]. unfold search_tasks.
  destruct (truthy keyword) eqn:E; simpl.
  - apply truthy_nonempty in E. apply filter_selects. intros t.
    rewrite contains_spec. tauto.
  - apply selects_none. intros t (Hne & _).
    apply truthy_nonempty in Hne. congruence.
Qed.

(** On ASCII text: the keyword matches in any letter case, and the empty
    keyword matches nothing. *)
Example search_tasks_run :
  map task_id (@search_tasks test_builtins "MILK" two_tasks) = [1]
  ∧ @search_tasks test_builtins "" two_tasks = [].
Proof. split; reflexivity. Qed.

(** ** Sorting *)

Lemma string_leb_trans (s1 s2 s3 : string) :
  String.leb s1 s2 = true → String.leb s2 s3 = true → String.leb s1 s3 = true.
Proof.
  unfold String.leb. revert s2 s3.
  induction s1 as [|a s1 IH]; intros [|b s2] [|c s3]; simpl; try done.
  unfold Ascii.compare.
  destruct (N.compare_spec (N_of_ascii a) (N_of_ascii b)) as [Hab|Hab|Hab];
    destruct (N.compare_spec (N_of_ascii b) (N_of_ascii c)) as [Hbc|Hbc|Hbc];
    destruct (N.compare_spec (N_of_ascii a) (N_of_ascii c)) as [Hac|Hac|Hac];
    try done; try lia.
  apply IH.
Qed.

Lemma string_ltb_leb (s1 s2 : string) :
  String.ltb s1 s2 = true → String.leb s2 s1 = false.
Proof.
  unfold String.ltb, String.leb. rewrite (String.compare_antisym s1 s2).
  by destruct (String.compare s2 s1).
Qed.

Section SortBy.
Variable le : Task → Task → bool.
Hypothesis le_total : ∀ a b, le a b = true ∨ le b a = true.
Hypothesis le_trans : ∀ a b c, le a b = true → le b c = true → le a c = true.

Lemma insert_sorted_perm (x : Task) (l : list Task) :
  insert_sorted le x l ≡ₚ x :: l.
Proof.
  induction l as [|y l IH]; simpl; [done|].
  destruct (le x y); [done|]. rewrite IH. apply Permutation_swap.
Qed.

Lemma sort_by_perm (l : list Task) : sort_by le l ≡ₚ l.
Proof.
  induction l as [|x l IH]; simpl; [done|].
  rewrite insert_sorted_perm. by rewrite IH.
Qed.

Lemma insert_sorted_sorted (x : Task) (l : list Task) :
  StronglySorted (fun a b => le a b = true) l →
  StronglySorted (fun a b => le a b = true) (insert_sorted le x l).
Proof.
  induction 1 as [|y l Hl IH Hy]; simpl.
  - repeat constructor.
  - destruct (le x y) eqn:E.
    + constructor; [by constructor|]. constructor; [done|].
      eapply Forall_impl; [exact Hy|]. intros z Hz. by eapply le_trans.
    + constructor; [done|].
      rewrite insert_sorted_perm. constructor; [|done].
      destruct (le_total x y); congruence.
Qed.

Lemma sort_by_sorted (l : list Task) :
  StronglySorted (fun a b => le a b = true) (sort_by le l).
Proof.
  induction l as [|x l IH]; simpl; [constructor|].
  by apply insert_sorted_sorted.
Qed.

End SortBy.

Lemma StronglySorted_split {A} (R : A → A → Prop) (pre : list A) (a : A)
    (post : list A) :
  StronglySorted R (pre ++ a :: post) →
  Forall (fun b => R b a) pre ∧ Forall (R a) post.
Proof.
  induction pre as [|x pre IH]; simpl; intros Hs.
  - apply StronglySorted_inv in Hs as [_ Hs]. by split.
  - apply StronglySorted_inv in Hs as [Hs Hx].
    destruct (IH Hs) as [Hpre Hpost]. split; [|done].
    constructor; [|done].
    rewrite Forall_forall in Hx. apply Hx. apply elem_of_app. right. constructor.
Qed.

Lemma StronglySorted_weaken {A} (R R' : A → A → Prop) (l : list A) :
  (∀ a b, R a b → R' a b) → StronglySorted R l → StronglySorted R' l.
Proof.
  intros HR. induction 1 as [|x l Hl IH Hx]; constructor; [done|].
  eapply Forall_impl; [exact Hx|]. intros b. apply HR.
Qed.

(** A sort commutes with a change of the tasks that leaves the order on
    them as it is. *)
Lemma sort_by_map (le : Task → Task → bool) (f : Task → Task) (l : list Task) :
  (∀ a b, le (f a) (f b) = le a b) →
  sort_by le (map f l) = map f (sort_by le l).
Proof.
  intros Hle. induction l as [|x l IH]; simpl; [done|].
  rewrite IH. generalize (sort_by le l). intros r.
  induction r as [|y r IHr]; simpl; [done|].
  rewrite Hle. destruct (le x y); simpl; [done|]. by rewrite IHr.
Qed.

(** A sort keeps the tasks that the order does not tell apart in the
    order they came in. *)
Lemma insert_sorted_filter (le : Task → Task → bool) (f : Task → bool)
    (x : Task) (l : list Task) :
  (∀ a b, f a = true → f b = true → le a b = true) →
  List.filter f (insert_sorted le x l) = List.filter f (x :: l).
Proof.
  intros Hle. induction l as [|y l IH]; [done|].
  cbn [insert_sorted]. destruct (le x y) eqn:E; [done|].
  cbn [List.filter] in *. rewrite IH.
  destruct (f x) eqn:Hx, (f y) eqn:Hy; try done.
  rewrite (Hle x y Hx Hy) in E. discriminate.
Qed.

Lemma sort_by_filter (le : Task → Task → bool) (f : Task → bool) (l : list Task) :
  (∀ a b, f a = true → f b = true → le a b = true) →
  List.filter f (sort_by le l) = List.filter f l.
Proof.
  intros Hle. induction l as [|x l IH]; [done|].
  cbn [sort_by foldr]. rewrite insert_sorted_filter by done.
  cbn [List.filter]. fold (sort_by le l). by rewrite IH.
Qed.

Lemma key_le_Z_total (key : Task → Z) (reverse : bool) (a b : Task) :
  key_le Z.leb key reverse a b = true ∨ key_le Z.leb key reverse b a = true.
Proof. unfold key_le. destruct reverse; lia. Qed.

Lemma key_le_Z_trans (key : Task → Z) (reverse : bool) (a b c : Task) :
  key_le Z.leb key reverse a b = true →
  key_le Z.leb key reverse b c = true →
  key_le Z.leb key reverse a c = true.
Proof. unfold key_le. destruct reverse; lia. Qed.

Lemma key_le_string_total (key : Task → string) (reverse : bool) (a b : Task) :
  key_le String.leb key reverse a b = true ∨ key_le String.leb key reverse b a = true.
Proof. unfold key_le. destruct reverse; apply String.leb_total. Qed.

Lemma key_le_string_trans (key : Task → string) (reverse : bool) (a b c : Task) :
  key_le String.leb key reverse a b = true →
  key_le String.leb key reverse b c = true →
  key_le String.leb key reverse a c = true.
Proof.
  unfold key_le. destruct reverse; intros H1 H2.
  - by apply (string_leb_trans _ (key b)).
  - by apply (string_leb_trans _ (key b)).
Qed.

Lemma due_date_key_undated (t : Task) : undated t → due_date_key t = sentinel_date.
Proof.
  unfold undated, due_date_key, truthy_opt.
  destruct (due_date t) as [d|]; [|done]. by intros ->.
Qed.

Lemma due_date_key_dated (t : Task) :
  dated t → String.leb sentinel_date (due_date_key t) = false.
Proof.
  intros (d & Hd & Ht & Hlt). unfold due_date_key. rewrite Hd, Ht.
  by apply string_ltb_leb.
Qed.

(** C6, as the code has it.  [sort_tasks] by ["due_date"] orders the tasks
    by the due date, with the sentinel ["9999-99-99"] in the place of an
    absent (or empty) due date: ascending when [reverse] is not set,
    descending when it is.  Without [reverse] no task with a due date
    below the sentinel stands after a task without a due date; with
    [reverse] the tasks without a due date come first instead: no such
    dated task stands before one of them. *)
Theorem sort_by_due_date_sentinel `{Builtins} (self_tasks l : list Task)
    (reverse : bool) :
  let r := sort_tasks self_tasks (Some l) "due_date" reverse in
  r ≡ₚ l
  ∧ StronglySorted
      (fun a b =>
         (if reverse then String.leb (due_date_key b) (due_date_key a)
          else String.leb (due_date_key a) (due_date_key b)) = true) r
  ∧ (if reverse then undated_first r else undated_last r).
Proof.
  assert (Hr : sort_tasks self_tasks (Some l) "due_date" reverse
               = sort_by (key_le String.leb due_date_key reverse) l) by done.
  simpl. rewrite Hr. clear Hr.
  pose proof (sort_by_sorted _ (key_le_string_total due_date_key reverse)
                (key_le_string_trans due_date_key reverse) l) as Hs.
  split; [apply sort_by_perm|]. split; [exact Hs|].
  destruct reverse.
  - intros pre a post b Heq Ha Hb Hd. rewrite Heq in Hs.
    apply StronglySorted_split in Hs as [Hpre _].
    rewrite Forall_forall in Hpre. specialize (Hpre _ Hb).
    unfold key_le in Hpre.
    rewrite (due_date_key_undated a Ha), (due_date_key_dated b Hd) in Hpre.
    discriminate.
  - intros pre a post b Heq Ha Hb Hd. rewrite Heq in Hs.
    apply StronglySorted_split in Hs as [_ Hpost].
    rewrite Forall_forall in Hpost. specialize (Hpost _ Hb).
    unfold key_le in Hpost.
    rewrite (due_date_key_undated a Ha), (due_date_key_dated b Hd) in Hpost.
    discriminate.
Qed.

(** C6, as stated, fails: with [reverse] set, the task without a due date
    is placed before the task with one. *)
Lemma undated_first_when_reversed :
  @sort_tasks test_builtins [] (Some [dated_task; undated_task])
    "due_date" true = [undated_task; dated_task]
  ∧ undated undated_task ∧ dated dated_task.
Proof.
  split; [reflexivity|]. split; [reflexivity|].
  exists "2099-01-01". by repeat split.
Qed.

(** Without [reverse] the two tasks come out dated first. *)
Example dated_first_when_not_reversed :
  @sort_tasks test_builtins [] (Some [undated_task; dated_task])
    "due_date" false = [dated_task; undated_task].
Proof. reflexivity. Qed.

Lemma priority_order_unrecognized (p : string) :
  recognized p = false → priority_order (Some p) = 0.
Proof.
  unfold recognized, priority_order. intros Hp.
  apply orb_false_iff in Hp as [Hp H3]. apply orb_false_iff in Hp as [H1 H2].
  by rewrite H1, H2, H3.
Qed.

Lemma priority_order_without_unrecognized (t : Task) :
  priority_order (priority (without_unrecognized t)) = priority_order (priority t).
Proof.
  unfold without_unrecognized. destruct (priority t) as [p|] eqn:E; [|by rewrite E].
  destruct (recognized p) eqn:Hp; [by rewrite E|].
  cbn [priority]. by rewrite (priority_order_unrecognized p Hp).
Qed.

Lemma priority_order_nonneg (o : option string) : 0 ≤ priority_order o.
Proof.
  unfold priority_order. destruct o as [p|]; [|done].
  destruct (String.eqb p "високий"); [done|].
  destruct (String.eqb p "середній"); [done|].
  by destruct (String.eqb p "низький").
Qed.

(** C10.  In [sort_tasks] by ["priority"] a priority outside the three
    labels has rank 0, the rank of an absent priority and the lowest rank
    there is.  The result holds the tasks of the input ordered by rank,
    ascending without [reverse] and descending with it, so the tasks with
    such a priority stand with the tasks without priority, before every
    task of a higher rank or after every such task; among themselves the
    tasks of rank 0, of both kinds, keep the order they came in.  The
    sort treats a task that carries such a priority as a task without
    priority: sorting commutes with taking such priorities away. *)
Theorem unrecognized_priority_sorts_as_none `{Builtins} (p : string)
    (self_tasks l : list Task) (reverse : bool) :
  recognized p = false →
  let rank := fun t => priority_order (priority t) in
  let r := sort_tasks self_tasks (Some l) "priority" reverse in
  priority_order (Some p) = 0
  ∧ priority_order (Some p) = priority_order None
  ∧ (∀ t, 0 ≤ rank t)
  ∧ r ≡ₚ l
  ∧ StronglySorted
      (fun a b => if reverse then rank b ≤ rank a else rank a ≤ rank b) r
  ∧ List.filter (fun t => rank t =? 0) r = List.filter (fun t => rank t =? 0) l
  ∧ sort_tasks self_tasks (Some (map without_unrecognized l)) "priority" reverse
    = map without_unrecognized r.
Proof.
  intros Hp rank r.
  assert (Hr : r = sort_by (key_le Z.leb rank reverse) l) by done.
  split; [by apply priority_order_unrecognized|].
  split; [by rewrite priority_order_unrecognized|].
  split; [intros t; apply priority_order_nonneg|].
  split; [rewrite Hr; apply sort_by_perm|].
  split; [|split].
  - pose proof (sort_by_sorted _ (key_le_Z_total rank reverse)
                  (key_le_Z_trans rank reverse) l) as Hs.
    rewrite Hr. eapply StronglySorted_weaken; [|exact Hs].
    intros a b. unfold key_le. destruct reverse; lia.
  - rewrite Hr. apply sort_by_filter. intros a b Ha Hb. unfold key_le.
    destruct reverse; lia.
  - rewrite Hr.
    change (sort_by (key_le Z.leb rank reverse) (map without_unrecognized l)
            = map without_unrecognized (sort_by (key_le Z.leb rank reverse) l)).
    apply sort_by_map. intros a b. unfold key_le, rank.
    by rewrite !priority_order_without_unrecognized.
Qed.

Lemma unrecognized_priority_sorts_as_none_witness :
  recognized "urgent" = false
  ∧ priority_order (Some "urgent") = 0
  ∧ priority_order (Some "urgent") = priority_order None
  ∧ @sort_tasks test_builtins [] (Some priority_tasks) "priority" true
    ≡ₚ priority_tasks
  ∧ List.filter (fun t => priority_order (priority t) =? 0)
      (@sort_tasks test_builtins [] (Some priority_tasks) "priority" true)
    = List.filter (fun t => priority_order (priority t) =? 0) priority_tasks
  ∧ @sort_tasks test_builtins []
      (Some (map without_unrecognized priority_tasks)) "priority" true
    = map without_unrecognized
        (@sort_tasks test_builtins [] (Some priority_tasks) "priority" true).
Proof.
  assert (Hp : recognized "urgent" = false) by reflexivity.
  pose proof (@unrecognized_priority_sorts_as_none test_builtins "urgent" []
                priority_tasks true Hp) as Hsort.
  cbv zeta in Hsort.
  destruct Hsort as (Hzero & Hnone & _ & Hperm & _ & Hstable & Hcommute).
  split; [exact Hp|]. split; [exact Hzero|]. split; [exact Hnone|].
  split; [exact Hperm|]. split; [exact Hstable|exact Hcommute].
Defined.

(** The task with the priority ["urgent"] sorts with the task without
    priority, below the lowest label, in both directions. *)
Example sort_priority_tasks :
  map task_id (@sort_tasks test_builtins [] (Some priority_tasks) "priority" true)
    = [2; 4; 1; 3]
  ∧ map task_id (@sort_tasks test_builtins [] (Some priority_tasks) "priority" false)
    = [1; 3; 4; 2].
Proof. split; reflexivity. Qed.

(** ** Records *)

Lemma truthy_or_empty (o : option string) :
  o ≠ Some "" →
  (if truthy (or_empty o) then Some (or_empty o) else None) = o.
Proof.
  destruct o as [s|]; simpl; [|done]. intros Hs.
  destruct (truthy s) eqn:E; simpl; [by rewrite E|].
  exfalso. apply Hs. f_equal.
  destruct (String.eqb_spec s ""); [done|].
  apply truthy_nonempty in n. congruence.
Qed.

Lemma truthy_Some (s : string) : Some s ≠ Some "" → truthy s = true.
Proof. intros Hs. apply truthy_nonempty. congruence. Qed.

(** A record written by [to_dict] is read back by [from_dict] as the task
    it was written from, unless an optional field holds the empty string. *)
Lemma from_dict_to_dict (t : Task) :
  no_empty_field t → from_dict (EDict (to_dict t)) = Ret t.
Proof.
  destruct t as [i ttl done created prio due tgs].
  unfold no_empty_field, to_dict, from_dict; simpl. intros [Hp Hd].
  destruct prio as [p|]; [rewrite (truthy_Some p Hp)|];
    (destruct due as [d|]; [rewrite (truthy_Some d Hd)|]);
    unfold getitem, get_opt_str, get_tags; by simplify_map_eq.
Qed.

Lemma mapM_outcome_cons {A B} (f : A → outcome B) (x : A) (l : list A) :
  mapM f (x :: l)
  = match f x with
    | Ret y => match mapM f l with Ret k => Ret (y :: k) | Raise e => Raise e end
    | Raise e => Raise e
    end.
Proof. reflexivity. Qed.

Lemma from_dicts_to_dicts (l : list Task) :
  Forall no_empty_field l → from_dicts (to_dicts l) = Ret l.
Proof.
  unfold from_dicts, to_dicts.
  induction 1 as [|t l Ht Hl IH]; [done|].
  rewrite map_cons, mapM_outcome_cons, from_dict_to_dict by done.
  by rewrite IH.
Qed.

Lemma bind_raises {A B} (m : outcome A) (f : A → outcome B) (e : exn) :
  m ≫= f = Raise e → m = Raise e ∨ ∃ a, m = Ret a ∧ f a = Raise e.
Proof.
  destruct m as [a|e']; simpl; [right; by exists a|intros [= <-]; by left].
Qed.

Lemma raises_lookup_bind {A B} (m : outcome A) (f : A → outcome B) :
  raises_lookup m → (∀ a, raises_lookup (f a)) → raises_lookup (m ≫= f).
Proof.
  intros Hm Hf e He. apply bind_raises in He as [He|(a & _ & He)].
  - by apply Hm.
  - by apply (Hf a).
Qed.

Lemma from_dict_raises (x : element) : raises_lookup (from_dict x).
Proof.
  destruct x as [d|]; [|intros e [= <-]; by right].
  unfold from_dict.
  repeat (apply raises_lookup_bind; [|intros ?]).
  all: try (intros e; unfold getitem, get_opt_str, get_tags;
     match goal with |- context [?m !! ?k] => destruct (m !! k) as [[]|] end;
     simpl; intros [= <-]; auto; fail).
  all: try (match goal with |- raises_lookup (_ ?a) => destruct a end;
     intros e [= <-]; auto; fail).
Qed.

Lemma from_dicts_raises (d : json) : raises_lookup (from_dicts d).
Proof.
  destruct d as [l|]; [|intros e [= <-]; by right]. simpl.
  induction l as [|x l IH]; [done|]. rewrite mapM_outcome_cons. intros e.
  destruct (from_dict x) as [t|e'] eqn:E.
  - destruct (mapM from_dict l); [done|]. intros [= <-]. by apply IH.
  - intros [= <-]. by apply (from_dict_raises x).
Qed.

(** ** Load and save *)

Section ManagerProperties.
Context `{Builtins} {text : Type} `{Codec text}.
Implicit Types s : @state text.

Lemma not_FileNotFoundError (e : exn) :
  e = KeyError ∨ e = TypeError → is_FileNotFoundError e = false.
Proof. by intros [->| ->]. Qed.

(** What [load_tasks] does, by the state of the backing file. *)
Lemma load_tasks_run s :
  load_tasks s =
  match disk s !! filename s with
  | None => (Ret false, s)
  | Some Locked => (Raise PermissionError, s)
  | Some (File file) =>
      match json_load file with
      | None => (Raise JSONDecodeError, s)
      | Some data =>
          match from_dicts data with
          | Raise e => (Raise e, s)
          | Ret l => (Ret true, set_tasks l s)
          end
      end
  end.
Proof.
  unfold load_tasks, try_except, open_read, json_load_file, lift, put_tasks.
  unfold mbind, M_bind, mret, M_ret, raise.
  destruct (disk s !! filename s) as [[file|]|]; [|done|done].
  destruct (json_load file) as [data|]; [|done].
  destruct (from_dicts data) as [l|e] eqn:E; [done|].
  by rewrite (not_FileNotFoundError e (from_dicts_raises data e E)).
Qed.

(** What [save_tasks] does, by the state of the backing file. *)
Lemma save_tasks_run s :
  save_tasks s =
  match disk s !! filename s with
  | Some Locked => (Raise PermissionError, s)
  | _ =>
      match json_dump (to_dicts (tasks s)) with
      | Written t => (Ret tt, set_disk (<[filename s := File t]> (disk s)) s)
      | Failed partial =>
          (Raise WriteError, set_disk (<[filename s := File partial]> (disk s)) s)
      end
  end.
Proof. reflexivity. Qed.

(** C7.  When the backing file does not exist, [load_tasks] returns
    [False] and leaves the manager as it is.  A file that cannot be
    opened, a text that is not JSON, and a document that [from_dict]
    rejects each raise to the caller; only a document that is read in full
    replaces the collection, and the result is [True]. *)
Theorem load_tasks_missing_file s :
  (disk s !! filename s = None → load_tasks s = (Ret false, s))
  ∧ (disk s !! filename s = Some Locked →
       load_tasks s = (Raise PermissionError, s))
  ∧ (∀ file, disk s !! filename s = Some (File file) → json_load file = None →
       load_tasks s = (Raise JSONDecodeError, s))
  ∧ (∀ file data e, disk s !! filename s = Some (File file) →
       json_load file = Some data → from_dicts data = Raise e →
       load_tasks s = (Raise e, s))
  ∧ (∀ file data l, disk s !! filename s = Some (File file) →
       json_load file = Some data → from_dicts data = Ret l →
       load_tasks s = (Ret true, set_tasks l s))
  ∧ (∀ s', load_tasks s = (Ret false, s') →
       disk s !! filename s = None ∧ s' = s).
Proof.
  rewrite load_tasks_run. repeat split.
  - by intros ->.
  - by intros ->.
  - by intros file -> ->.
  - by intros file data e -> -> ->.
  - by intros file data l -> -> ->.
  - destruct (disk s !! filename s) as [[file|]|]; [|done|done].
    destruct (json_load file) as [data|]; [|done].
    by destruct (from_dicts data).
  - destruct (disk s !! filename s) as [[file|]|]; [|done|congruence].
    destruct (json_load file) as [data|]; [|done].
    by destruct (from_dicts data).
Qed.


(** ** Export and import *)

(** [try: body except Exception: handler] where [body] raises nothing
    but exceptions that derive from [Exception]. *)
Lemma try_except_Exception {A} (body handler : M A) s :
  (∀ e s', body s = (Raise e, s') → is_Exception e = true) →
  try_except body is_Exception handler s =
  match body s with
  | (Raise e, s') => handler s'
  | r => r
  end.
Proof.
  intros He. unfold try_except. destruct (body s) as [[a|e] s']; [done|].
  by rewrite (He e s').
Qed.

(** What a write through [open] does, by the state of the path. *)
Lemma open_write_run (path : string) (w : written text) s :
  (open_write path w;; mret true) s =
  match disk s !! path with
  | Some Locked => (Raise PermissionError, s)
  | _ =>
      match w with
      | Written t => (Ret true, set_disk (<[path := File t]> (disk s)) s)
      | Failed partial =>
          (Raise WriteError, set_disk (<[path := File partial]> (disk s)) s)
      end
  end.
Proof.
  unfold mbind, M_bind, open_write.
  by destruct (disk s !! path) as [[file|]|], w.
Qed.

(** What the body of [export_tasks] does, by the format, the state of
    the file and the outcome of the write. *)
Lemma export_body_run (fname format : string) s :
  export_body fname format s =
  if String.eqb (lower format) "json" then
    match disk s !! fname with
    | Some Locked => (Raise PermissionError, s)
    | _ =>
        match json_dump (to_dicts (tasks s)) with
        | Written t => (Ret true, set_disk (<[fname := File t]> (disk s)) s)
        | Failed partial =>
            (Raise WriteError, set_disk (<[fname := File partial]> (disk s)) s)
        end
    end
  else if String.eqb (lower format) "csv" then
    match disk s !! fname with
    | Some Locked => (Raise PermissionError, s)
    | _ =>
        match csv_write (csv_header :: map csv_row (tasks s)) with
        | Written t => (Ret true, set_disk (<[fname := File t]> (disk s)) s)
        | Failed partial =>
            (Raise WriteError, set_disk (<[fname := File partial]> (disk s)) s)
        end
    end
  else (Ret false, s).
Proof.
  unfold export_body.
  destruct (String.eqb (lower format) "json"); [apply open_write_run|].
  destruct (String.eqb (lower format) "csv"); [apply open_write_run|done].
Qed.

Lemma export_body_Exception (fname format : string) s e s' :
  export_body fname format s = (Raise e, s') → is_Exception e = true.
Proof.
  rewrite export_body_run.
  destruct (String.eqb (lower format) "json").
  - destruct (disk s !! fname) as [[file|]|],
      (json_dump (to_dicts (tasks s)));
      by intros [= <- _].
  - destruct (String.eqb (lower format) "csv"); [|done].
    destruct (disk s !! fname) as [[file|]|],
      (csv_write (csv_header :: map csv_row (tasks s)));
      by intros [= <- _].
Qed.

(** What [export_tasks] does, by the format, the state of the file and
    the outcome of the write. *)
Lemma export_tasks_run (fname format : string) s :
  export_tasks fname format s =
  if String.eqb (lower format) "json" then
    match disk s !! fname with
    | Some Locked => (Ret false, s)
    | _ =>
        match json_dump (to_dicts (tasks s)) with
        | Written t => (Ret true, set_disk (<[fname := File t]> (disk s)) s)
        | Failed partial =>
            (Ret false, set_disk (<[fname := File partial]> (disk s)) s)
        end
    end
  else if String.eqb (lower format) "csv" then
    match disk s !! fname with
    | Some Locked => (Ret false, s)
    | _ =>
        match csv_write (csv_header :: map csv_row (tasks s)) with
        | Written t => (Ret true, set_disk (<[fname := File t]> (disk s)) s)
        | Failed partial =>
            (Ret false, set_disk (<[fname := File partial]> (disk s)) s)
        end
    end
  else (Ret false, s).
Proof.
  unfold export_tasks.
  rewrite try_except_Exception by apply export_body_Exception.
  rewrite export_body_run.
  destruct (String.eqb (lower format) "json").
  - by destruct (disk s !! fname) as [[file|]|],
      (json_dump (to_dicts (tasks s))).
  - destruct (String.eqb (lower format) "csv"); [|done].
    by destruct (disk s !! fname) as [[file|]|],
      (csv_write (csv_header :: map csv_row (tasks s))).
Qed.

(** What the body of a JSON import does, by the state of the file. *)
Lemma import_body_json_run (fname format : string) s :
  String.eqb (lower format) "json" = true →
  import_body fname format s =
  match disk s !! fname with
  | None => (Raise FileNotFoundError, s)
  | Some Locked => (Raise PermissionError, s)
  | Some (File file) =>
      match json_load file with
      | None => (Raise JSONDecodeError, s)
      | Some data =>
          match from_dicts data with
          | Raise e => (Raise e, s)
          | Ret l =>
              (Ret true,
               set_tasks (tasks s ++ renumber (_generate_id (tasks s)) l) s)
          end
      end
  end.
Proof.
  intros Hfmt. unfold import_body. rewrite Hfmt.
  unfold mbind, M_bind, open_read, json_load_file, lift, get_tasks, put_tasks.
  unfold mret, M_ret, raise.
  destruct (disk s !! fname) as [[file|]|]; [|done|done].
  destruct (json_load file) as [data|]; [|done].
  by destruct (from_dicts data).
Qed.

(** What a JSON import does, by the state of the file. *)
Lemma import_json_run (fname format : string) s :
  String.eqb (lower format) "json" = true →
  import_tasks fname format s =
  match disk s !! fname with
  | None | Some Locked => (Ret false, s)
  | Some (File file) =>
      match json_load file with
      | None => (Ret false, s)
      | Some data =>
          match from_dicts data with
          | Raise _ => (Ret false, s)
          | Ret l =>
              (Ret true,
               set_tasks (tasks s ++ renumber (_generate_id (tasks s)) l) s)
          end
      end
  end.
Proof.
  intros Hfmt. unfold import_tasks, try_except.
  rewrite (import_body_json_run _ _ _ Hfmt).
  destruct (disk s !! fname) as [[file|]|]; [|done|done].
  destruct (json_load file) as [data|]; [|done].
  destruct (from_dicts data) as [l|e] eqn:E; [done|].
  by destruct (from_dicts_raises data e E) as [-> | ->].
Qed.

Lemma alter_last (f : Task → Task) (l : list Task) (t : Task) :
  alter f (length l) (l ++ [t]) = l ++ [f t].
Proof. rewrite alter_app_r_alt by lia. by rewrite Nat.sub_diag. Qed.

(** The loop over the tags calls [add_tag] on the task at the end of the
    collection. *)
Lemma add_tags_run (tgs : list string) (l : list Task) (t : Task) s :
  tasks s = l ++ [t] →
  for_each tgs (fun tag => update_task (length l) (add_tag (strip tag))) s
  = (Ret tt,
     set_tasks (l ++ [foldl (fun t tag => add_tag (strip tag) t) t tgs]) s).
Proof.
  revert t s. induction tgs as [|tag tgs IH]; intros t s Hs.
  - simpl. unfold mret, M_ret, set_tasks. rewrite <-Hs. by destruct s.
  - simpl. unfold mbind, M_bind, update_task at 1. rewrite Hs, alter_last.
    rewrite (IH (add_tag (strip tag) t)); [|done]. done.
Qed.

Lemma import_row_run (row : list string) s :
  import_row row s = (Ret tt, after_rows [row] s).
Proof.
  unfold import_row, after_rows. cbn [tasks_of_rows].
  destruct (6 <=? length row)%nat.
  - unfold mbind, M_bind, add_task_m, add_task. cbn [fst snd].
    set (t0 := new_task _ _ _ _ _).
    assert (Hmark : ∀ s0, tasks s0 = tasks s ++ [t0] →
      (if String.eqb (nth 2 row "") "Виконано"
       then update_task (length (tasks s)) mark_completed
       else mret tt) s0
      = (Ret tt, set_tasks (tasks s ++
           [if String.eqb (nth 2 row "") "Виконано" then mark_completed t0 else t0]) s0)).
    { intros s0 Hs0. destruct (String.eqb (nth 2 row "") "Виконано").
      - unfold update_task. by rewrite Hs0, alter_last.
      - unfold mret, M_ret, set_tasks. rewrite <-Hs0. by destruct s0. }
    rewrite Hmark by done. cbv beta iota.
    erewrite (add_tags_run _ (tasks s)); [|reflexivity].
    unfold task_of_row, set_tasks. cbn [tasks filename disk time length].
    by rewrite Nat.add_1_r.
  - unfold mret, M_ret. destruct s. cbn. by rewrite app_nil_r, Nat.add_0_r.
Qed.

Lemma add_tags_id (tgs : list string) (t : Task) :
  task_id (foldl (fun t tag => add_tag (strip tag) t) t tgs) = task_id t.
Proof.
  revert t. induction tgs as [|tag tgs IH]; intros t; simpl; [done|].
  by rewrite IH.
Qed.

Lemma task_of_row_id (i : Z) (now : string) (row : list string) :
  task_id (task_of_row i now row) = i.
Proof.
  unfold task_of_row. rewrite add_tags_id.
  by destruct (String.eqb (nth 2 row "") "Виконано").
Qed.

Lemma after_rows_nil s : after_rows [] s = s.
Proof.
  unfold after_rows. destruct s. simpl. by rewrite app_nil_r, Nat.add_0_r.
Qed.

Lemma after_rows_cons (row : list string) (rows : list (list string)) s :
  after_rows (row :: rows) s = after_rows rows (after_rows [row] s).
Proof.
  unfold after_rows. cbn [tasks_of_rows].
  destruct (6 <=? length row)%nat; cbn [tasks filename disk time length].
  - rewrite (generate_id_snoc (tasks s)) by apply task_of_row_id.
    rewrite task_of_row_id, Nat.add_1_r, <-app_assoc. simpl.
    f_equal. lia.
  - by rewrite app_nil_r, Nat.add_0_r.
Qed.

(** The loop over the rows adds the tasks of the rows and never raises. *)
Lemma import_rows_run (rows : list (list string)) s :
  for_each rows import_row s = (Ret tt, after_rows rows s).
Proof.
  revert s. induction rows as [|row rows IH]; intros s.
  - by rewrite after_rows_nil.
  - simpl. unfold mbind, M_bind. rewrite import_row_run, IH.
    by rewrite <-after_rows_cons.
Qed.

(** What the body of a CSV import does, by the state of the file and
    what the reader delivers. *)
Lemma import_body_csv_run (fname format : string) s :
  String.eqb (lower format) "json" = false →
  String.eqb (lower format) "csv" = true →
  import_body fname format s =
  match disk s !! fname with
  | None => (Raise FileNotFoundError, s)
  | Some Locked => (Raise PermissionError, s)
  | Some (File file) =>
      match csv_read file with
      | ([], fin) => (Raise (reader_end fin), s)
      | (headers :: rows, EndOfFile) => (Ret true, after_rows rows s)
      | (headers :: rows, ReadError) => (Raise CsvError, after_rows rows s)
      end
  end.
Proof.
  intros Hjson Hcsv. unfold import_body. rewrite Hjson, Hcsv.
  unfold mbind at 1. unfold M_bind at 1. unfold open_read.
  destruct (disk s !! fname) as [[file|]|]; [|done|done].
  destruct (csv_read file) as [[|headers rows] fin]; [done|].
  unfold for_rows, mbind, M_bind. rewrite import_rows_run.
  by destruct fin.
Qed.

(** The body of an import in another format. *)
Lemma import_body_unsupported_run (fname format : string) s :
  String.eqb (lower format) "json" = false →
  String.eqb (lower format) "csv" = false →
  import_body fname format s = (Ret false, s).
Proof. intros Hjson Hcsv. unfold import_body. by rewrite Hjson, Hcsv. Qed.

Lemma import_body_Exception (fname format : string) s e s' :
  import_body fname format s = (Raise e, s') → is_Exception e = true.
Proof.
  destruct (String.eqb (lower format) "json") eqn:Hjson.
  - rewrite (import_body_json_run _ _ _ Hjson).
    destruct (disk s !! fname) as [[file|]|]; [|by intros [= <- _]..].
    destruct (json_load file) as [data|]; [|by intros [= <- _]].
    destruct (from_dicts data) as [l|e'] eqn:E; [done|].
    intros [= <- _]. by destruct (from_dicts_raises data e' E) as [-> | ->].
  - destruct (String.eqb (lower format) "csv") eqn:Hcsv.
    + rewrite (import_body_csv_run _ _ _ Hjson Hcsv).
      destruct (disk s !! fname) as [[file|]|]; [|by intros [= <- _]..].
      destruct (csv_read file) as [[|headers rows] [|]];
        by intros [= <- _].
    + by rewrite (import_body_unsupported_run _ _ _ Hjson Hcsv).
Qed.

(** What a CSV import does, by the state of the file and what the reader
    delivers. *)
Lemma import_csv_run (fname format : string) s :
  String.eqb (lower format) "json" = false →
  String.eqb (lower format) "csv" = true →
  import_tasks fname format s =
  match disk s !! fname with
  | None | Some Locked => (Ret false, s)
  | Some (File file) =>
      match csv_read file with
      | ([], _) => (Ret false, s)
      | (headers :: rows, EndOfFile) => (Ret true, after_rows rows s)
      | (headers :: rows, ReadError) => (Ret false, after_rows rows s)
      end
  end.
Proof.
  intros Hjson Hcsv. unfold import_tasks.
  rewrite try_except_Exception by apply import_body_Exception.
  rewrite (import_body_csv_run _ _ _ Hjson Hcsv).
  destruct (disk s !! fname) as [[file|]|]; [|done|done].
  by destruct (csv_read file) as [[|headers rows] [|]].
Qed.

(** An import in a format that is neither JSON nor CSV changes nothing. *)
Lemma import_unsupported_run (fname format : string) s :
  String.eqb (lower format) "json" = false →
  String.eqb (lower format) "csv" = false →
  import_tasks fname format s = (Ret false, s).
Proof.
  intros Hjson Hcsv. unfold import_tasks, try_except.
  by rewrite (import_body_unsupported_run _ _ _ Hjson Hcsv).
Qed.

Lemma renumber_ids (g : Z) (l : list Task) :
  map task_id (renumber g l) = ids_from g (length (renumber g l)).
Proof.
  revert g. induction l as [|t l IH]; intros g; simpl; [done|]. by rewrite IH.
Qed.

Lemma tasks_of_rows_ids (g : Z) (n : nat) (rows : list (list string)) :
  map task_id (tasks_of_rows g n rows)
  = ids_from g (length (tasks_of_rows g n rows)).
Proof.
  revert g n. induction rows as [|row rows IH]; intros g n; [done|].
  cbn [tasks_of_rows]. destruct (6 <=? length row)%nat; [|apply IH].
  cbn [map length ids_from]. by rewrite task_of_row_id, IH.
Qed.

Lemma ids_from_ge (g : Z) (n : nat) (i : Z) : i ∈ ids_from g n → g ≤ i.
Proof.
  revert g. induction n as [|n IH]; intros g; simpl.
  - intros Hi. by apply elem_of_nil in Hi.
  - intros Hi. apply elem_of_cons in Hi as [->|Hi]; [lia|].
    apply IH in Hi. lia.
Qed.

Lemma renumber_same_but_id (g : Z) (l : list Task) :
  Forall2 same_but_id l (renumber g l).
Proof.
  revert g. induction l as [|t l IH]; intros g; simpl; constructor; [done|].
  apply IH.
Qed.

Lemma add_tags_fields (tgs : list string) (t : Task) :
  foldl (fun t tag => add_tag (strip tag) t) t tgs
  = set_tags (tags (foldl (fun t tag => add_tag (strip tag) t) t tgs)) t.
Proof.
  revert t. induction tgs as [|tag tgs IH]; intros t; simpl.
  - by destruct t.
  - by rewrite IH.
Qed.

Lemma task_of_row_columns (i : Z) (n : nat) (row : list string) :
  task_of_columns row (task_of_row i (strftime_now n) row).
Proof.
  assert (Hfields : ∀ t : Task,
    let t' := foldl (fun t tag => add_tag (strip tag) t)
                (if String.eqb (nth 2 row "") "Виконано"
                 then mark_completed t else t)
                (if (6 <? length row)%nat && truthy (nth 6 row "")
                 then split_on comma (nth 6 row "") else []) in
    title t' = title t
    ∧ completed t' = (String.eqb (nth 2 row "") "Виконано" || completed t)
    ∧ priority t' = priority t ∧ due_date t' = due_date t).
  { intros t. cbv zeta. rewrite add_tags_fields.
    by destruct (String.eqb (nth 2 row "") "Виконано"). }
  unfold task_of_columns.
  destruct (Hfields (new_task i (strftime_now n) (nth 1 row "")
                       (if truthy (nth 3 row "") then Some (nth 3 row "") else None)
                       (if truthy (nth 4 row "") then Some (nth 4 row "") else None)))
    as (Ht & Hc & Hp & Hd).
  unfold task_of_row at 1 2 3 4.
  rewrite Ht, Hc, Hp, Hd. cbn [title completed priority due_date new_task].
  rewrite orb_false_r. repeat split; try done.
  exists n. by rewrite task_of_row_id.
Qed.

Lemma tasks_of_rows_columns (g : Z) (n : nat) (rows : list (list string)) :
  Forall2 task_of_columns (long_rows rows) (tasks_of_rows g n rows).
Proof.
  revert g n. induction rows as [|row rows IH]; intros g n; [constructor|].
  unfold long_rows. cbn [List.filter tasks_of_rows].
  destruct (6 <=? length row)%nat; [|apply IH].
  constructor; [apply task_of_row_columns|apply IH].
Qed.

(** C3.  An import that succeeds appends the imported tasks to the
    collection, which keeps the tasks it had with their identifiers, and
    gives the imported tasks the identifiers next, next + 1, ... in their
    order, where next is the identifier [_generate_id] gives on the
    collection before the import; these are above every identifier the
    collection held, and the identifiers in the file are not used.  There
    is one imported task for each record of the JSON document, in the
    order of the records, with every field but the identifier as the
    record has it; or one for each row of at least six columns after the
    header of the CSV file, in the order of the rows, with the fields the
    columns of the row give. *)
Theorem import_assigns_fresh_ids (fname format : string) s s' :
  import_tasks fname format s = (Ret true, s') →
  ∃ imported,
    tasks s' = tasks s ++ imported
    ∧ map task_id imported = ids_from (_generate_id (tasks s)) (length imported)
    ∧ (∀ t t', t ∈ tasks s → t' ∈ imported → task_id t < task_id t')
    ∧ ((∃ file data l, disk s !! fname = Some (File file)
          ∧ json_load file = Some data ∧ from_dicts data = Ret l
          ∧ imported = renumber (_generate_id (tasks s)) l
          ∧ length imported = length l
          ∧ Forall2 same_but_id l imported)
       ∨ (∃ file headers rows, disk s !! fname = Some (File file)
          ∧ csv_read file = (headers :: rows, EndOfFile)
          ∧ imported = tasks_of_rows (_generate_id (tasks s)) (time s) rows
          ∧ length imported = length (long_rows rows)
          ∧ Forall2 task_of_columns (long_rows rows) imported)).
Proof.
  assert (Habove : ∀ imported,
    map task_id imported = ids_from (_generate_id (tasks s)) (length imported) →
    ∀ t t', t ∈ tasks s → t' ∈ imported → task_id t < task_id t').
  { intros imported Hids t t' Ht Ht'.
    apply generate_id_above in Ht.
    apply (list_elem_of_fmap_2 task_id) in Ht'.
    change (task_id <$> imported) with (map task_id imported) in Ht'.
    rewrite Hids in Ht'. apply ids_from_ge in Ht'. lia. }
  destruct (String.eqb (lower format) "json") eqn:Hjson.
  - rewrite (import_json_run _ _ _ Hjson).
    destruct (disk s !! fname) as [[file|]|] eqn:Hd; [|done|done].
    destruct (json_load file) as [data|] eqn:Hl; [|done].
    destruct (from_dicts data) as [l|] eqn:Hf; [|done].
    intros [= <-]. exists (renumber (_generate_id (tasks s)) l).
    split; [done|]. split; [apply renumber_ids|].
    split; [apply Habove, renumber_ids|].
    left. exists file, data, l. repeat split; try done.
    + symmetry. eapply Forall2_length, renumber_same_but_id.
    + apply renumber_same_but_id.
  - destruct (String.eqb (lower format) "csv") eqn:Hcsv.
    + rewrite (import_csv_run _ _ _ Hjson Hcsv).
      destruct (disk s !! fname) as [[file|]|] eqn:Hd; [|done|done].
      destruct (csv_read file) as [[|headers rows] [|]] eqn:Hr; try done.
      intros [= <-].
      exists (tasks_of_rows (_generate_id (tasks s)) (time s) rows).
      split; [done|]. split; [apply tasks_of_rows_ids|].
      split; [apply Habove, tasks_of_rows_ids|].
      right. exists file, headers, rows. repeat split; try done.
      * symmetry. eapply Forall2_length, tasks_of_rows_columns.
      * apply tasks_of_rows_columns.
    + by rewrite (import_unsupported_run _ _ _ Hjson Hcsv).
Qed.



(** ** Round trips *)

Lemma split_on_no_comma (s : string) :
  has_comma s = false → split_on comma s = [s].
Proof.
  induction s as [|c s IH]; simpl; [done|].
  intros Hc. apply orb_false_iff in Hc as [Hc Hs].
  by rewrite Hc, (IH Hs).
Qed.

Lemma split_on_append (s rest : string) :
  has_comma s = false →
  split_on comma (s +:+ String comma rest) = s :: split_on comma rest.
Proof.
  induction s as [|c s IH]; simpl.
  - by intros _.
  - intros Hc. apply orb_false_iff in Hc as [Hc Hs].
    by rewrite Hc, (IH Hs).
Qed.

Lemma join_comma_cons (x y : string) (l : list string) :
  join_comma (x :: y :: l) = x +:+ String comma (join_comma (y :: l)).
Proof. reflexivity. Qed.

Lemma split_join_comma (l : list string) :
  l ≠ [] → Forall (fun tag => has_comma tag = false) l →
  split_on comma (join_comma l) = l.
Proof.
  intros Hne Hl. induction Hl as [|x l Hx Hl IH]; [done|].
  destruct l as [|y l].
  - by apply split_on_no_comma.
  - rewrite join_comma_cons, split_on_append by done. by rewrite IH.
Qed.

Lemma join_comma_nonempty (x : string) (l : list string) :
  x ≠ "" → truthy (join_comma (x :: l)) = true.
Proof.
  intros Hx. apply truthy_nonempty.
  destruct l as [|y l]; [done|]. rewrite join_comma_cons.
  destruct x; [done|discriminate].
Qed.

(** The tags that the import reads in the tags column of an exported row. *)
Lemma split_exported_tags (l : list string) :
  Forall (fun tag => tag ≠ "" ∧ has_comma tag = false) l →
  (if truthy (join_comma l) then split_on comma (join_comma l) else []) = l.
Proof.
  intros Hl. destruct l as [|x l]; [done|].
  rewrite join_comma_nonempty by (by apply Forall_inv in Hl as [? _]).
  apply split_join_comma; [done|].
  eapply Forall_impl; [exact Hl|]. by intros tag [_ ?].
Qed.

Lemma add_stripped_tags (l acc : list string) (t : Task) :
  tags t = acc → NoDup (acc ++ l) →
  Forall (fun tag => tag ≠ "" ∧ strip tag = tag) l →
  foldl (fun t tag => add_tag (strip tag) t) t l = set_tags (acc ++ l) t.
Proof.
  revert acc t. induction l as [|tag l IH]; intros acc t Hacc Hnd Hl.
  - simpl. rewrite app_nil_r, <-Hacc. by destruct t.
  - apply Forall_cons in Hl as [[Hne Hstrip] Hl]. simpl. rewrite Hstrip.
    rewrite (IH (acc ++ [tag])).
    + by rewrite <-app_assoc.
    + simpl. rewrite Hacc. apply add_tag_list_append; [done|].
      apply NoDup_app in Hnd as (_ & Hnd & _). intros Hin.
      apply (Hnd tag Hin). constructor.
    + by rewrite <-app_assoc.
    + done.
Qed.

Lemma status_column (b : bool) :
  String.eqb (if b then "Виконано" else "Активно") "Виконано" = b.
Proof. by destruct b. Qed.

(** The task the import makes of the exported row of a task: the task
    with a new identifier and a new creation time. *)
Lemma task_of_csv_row (i : Z) (now : string) (t : Task) :
  no_empty_field t → csv_safe_tags (tags t) →
  task_of_row i now (csv_row t) = set_created_at now (set_id i t).
Proof.
  intros [Hp Hd] [Hnd Htags]. unfold task_of_row, csv_row.
  cbn [nth length Nat.ltb Nat.leb andb].
  rewrite status_column, (truthy_or_empty _ Hp), (truthy_or_empty _ Hd).
  rewrite split_exported_tags
    by (eapply Forall_impl; [exact Htags|]; by intros tag (? & ? & _)).
  set (t0 := if completed t then _ else _).
  rewrite (add_stripped_tags (tags t) [] t0).
  - subst t0. destruct t as [? ? [] ? ? ? ?]; reflexivity.
  - subst t0. by destruct (completed t).
  - done.
  - eapply Forall_impl; [exact Htags|]. by intros tag (? & _ & ?).
Qed.

Lemma tasks_of_csv_rows (g : Z) (n : nat) (l : list Task) :
  Forall no_empty_field l → Forall (fun t => csv_safe_tags (tags t)) l →
  map (set_created_at "") (tasks_of_rows g n (map csv_row l))
  = map (set_created_at "") (renumber g l).
Proof.
  intros Hf Ht. revert g n.
  induction l as [|t l IH]; intros g n; [done|].
  apply Forall_cons in Hf as [Hf Hfl]. apply Forall_cons in Ht as [Ht Htl].
  rewrite map_cons. cbn [tasks_of_rows renumber map].
  change (6 <=? length (csv_row t))%nat with true. cbv iota.
  rewrite task_of_csv_row by done. rewrite map_cons. by rewrite IH.
Qed.


Lemma long_rows_csv (l : list Task) : long_rows (map csv_row l) = map csv_row l.
Proof. induction l as [|t l IH]; [done|]. unfold long_rows. simpl. by f_equal. Qed.


End ManagerProperties.

(** ** The operations run on the example managers *)

#[local] Existing Instance test_builtins.

Lemma load_tasks_missing_file_witness :
  disk state_fresh !! filename state_fresh = None
  ∧ load_tasks state_fresh = (Ret false, state_fresh).
Proof.
  assert (Hmiss : disk state_fresh !! filename state_fresh = None) by reflexivity.
  split; [exact Hmiss|].
  exact (proj1 (load_tasks_missing_file state_fresh) Hmiss).
Defined.

Lemma import_assigns_fresh_ids_witness :
  (import_tasks "in.json" "json" state_with_json
     = (Ret true,
        set_tasks (three_tasks ++ renumber 4 two_tasks) state_with_json)
   ∧ ∃ imported,
       tasks (set_tasks (three_tasks ++ renumber 4 two_tasks) state_with_json)
         = tasks state_with_json ++ imported
       ∧ map task_id imported
         = ids_from (_generate_id (tasks state_with_json)) (length imported))
  ∧ (import_tasks "in.csv" "csv" state_with_csv
       = (Ret true, after_rows two_rows state_with_csv)
     ∧ ∃ imported,
         tasks (after_rows two_rows state_with_csv)
           = tasks state_with_csv ++ imported
         ∧ map task_id imported
           = ids_from (_generate_id (tasks state_with_csv)) (length imported)).
Proof.
  assert (Hjson : import_tasks "in.json" "json" state_with_json
                  = (Ret true,
                     set_tasks (three_tasks ++ renumber 4 two_tasks)
                       state_with_json))
    by (vm_compute; reflexivity).
  assert (Hcsv : import_tasks "in.csv" "csv" state_with_csv
                 = (Ret true, after_rows two_rows state_with_csv))
    by (vm_compute; reflexivity).
  split; (split; [eassumption|]).
  - destruct (import_assigns_fresh_ids "in.json" "json" state_with_json _ Hjson)
      as (imported & Htasks & Hids & _ & _).
    exists imported. split; [exact Htasks|exact Hids].
  - destruct (import_assigns_fresh_ids "in.csv" "csv" state_with_csv _ Hcsv)
      as (imported & Htasks & Hids & _ & _).
    exists imported. split; [exact Htasks|exact Hids].
Defined.

(** A JSON file of two records imported into a manager that holds the
    identifiers 1 to 3: the records come in with the identifiers 4 and 5,
    whatever identifiers the file gives them, and with their other fields
    as the file has them. *)
Example import_two_records :
  map task_id two_tasks = [1; 2]
  ∧ map task_id
      (tasks (snd (import_tasks "in.json" "json" state_with_json)))
    = [1; 2; 3; 4; 5]
  ∧ map (set_id 0)
      (drop 3 (tasks (snd (import_tasks "in.json" "json" state_with_json))))
    = map (set_id 0) two_tasks.
Proof. repeat split; vm_compute; reflexivity. Qed.

(** The scenario of the specification: a CSV file of two rows imported
    into a manager that holds the identifiers 1 to 3. *)
Example import_two_rows :
  map task_id (tasks state_with_csv) = [1; 2; 3]
  ∧ map task_id (tasks (snd (import_tasks "in.csv" "csv" state_with_csv)))
    = [1; 2; 3; 4; 5]
  ∧ take 3 (tasks (snd (import_tasks "in.csv" "csv" state_with_csv)))
    = tasks state_with_csv.
Proof. repeat split; vm_compute; reflexivity. Qed.







(** * Properties of the remaining operations *)

(** ** Lookup, completion and deletion by identifier *)

Lemma first_with_id_cons_ne (i : Z) (x : Task) (l pre : list Task) (t : Task)
    (post : list Task) :
  task_id x ≠ i → first_with_id i l pre t post →
  first_with_id i (x :: l) (x :: pre) t post.
Proof.
  intros Hx (-> & Ht & Hpre). split; [done|]. split; [done|]. by constructor.
Qed.

(** X1.  [get_task_by_id] returns [None] exactly when no task has the
    identifier, and otherwise the first task of the collection that has
    it. *)
Theorem get_task_by_id_first (i : Z) (l : list Task) :
  match get_task_by_id i l with
  | None => Forall (fun t => task_id t ≠ i) l
  | Some t => ∃ pre post, first_with_id i l pre t post
  end.
Proof.
  induction l as [|x l IH]; simpl; [constructor|].
  destruct (Z.eqb_spec (task_id x) i) as [Heq|Hne].
  - exists [], l. split; [done|]. split; [done|constructor].
  - destruct (get_task_by_id i l) as [t|].
    + destruct IH as (pre & post & IH). exists (x :: pre), post.
      by apply first_with_id_cons_ne.
    + by constructor.
Qed.

(** What [delete_task] does, by what [get_task_by_id] finds. *)
Lemma delete_task_run (i : Z) (l : list Task) :
  match get_task_by_id i l with
  | None => delete_task i l = (l, false)
  | Some t =>
      ∃ pre post, first_with_id i l pre t post
        ∧ delete_task i l = (pre ++ post, true)
  end.
Proof.
  induction l as [|x l IH]; simpl; [done|].
  destruct (Z.eqb_spec (task_id x) i) as [Heq|Hne].
  - exists [], l. split; [|done]. split; [done|]. split; [done|constructor].
  - destruct (get_task_by_id i l) as [t|].
    + destruct IH as (pre & post & Hfirst & ->). exists (x :: pre), post.
      split; [by apply first_with_id_cons_ne|done].
    + by rewrite IH.
Qed.

(** X2.  [delete_task] returns [False] and leaves the collection as it is
    when no task has the identifier; otherwise it returns [True] and
    removes the first task that has it, and only that one. *)
Theorem delete_task_removes_first (i : Z) (l : list Task) :
  match get_task_by_id i l with
  | None => delete_task i l = (l, false)
  | Some t =>
      ∃ pre post, first_with_id i l pre t post
        ∧ delete_task i l = (pre ++ post, true)
  end.
Proof. apply delete_task_run. Qed.

(** What [complete_task] does, by what [get_task_by_id] finds. *)
Lemma complete_task_run (i : Z) (l : list Task) :
  match get_task_by_id i l with
  | None => complete_task i l = (l, false)
  | Some t =>
      ∃ pre post, first_with_id i l pre t post
        ∧ complete_task i l = (pre ++ mark_completed t :: post, true)
  end.
Proof.
  induction l as [|x l IH]; simpl; [done|].
  destruct (Z.eqb_spec (task_id x) i) as [Heq|Hne].
  - exists [], l. split; [|done]. split; [done|]. split; [done|constructor].
  - destruct (get_task_by_id i l) as [t|].
    + destruct IH as (pre & post & Hfirst & ->). exists (x :: pre), post.
      split; [by apply first_with_id_cons_ne|done].
    + by rewrite IH.
Qed.

(** X3.  [complete_task] returns [False] and leaves the collection as it
    is when no task has the identifier; otherwise it returns [True] and
    marks the first task that has it, leaving every other task, the
    order and the identifiers as they are. *)
Theorem complete_task_marks_first (i : Z) (l : list Task) :
  match get_task_by_id i l with
  | None => complete_task i l = (l, false)
  | Some t =>
      ∃ pre post, first_with_id i l pre t post
        ∧ complete_task i l = (pre ++ mark_completed t :: post, true)
  end.
Proof. apply complete_task_run. Qed.

Lemma complete_task_ids (i : Z) (l : list Task) :
  map task_id (fst (complete_task i l)) = map task_id l.
Proof.
  induction l as [|x l IH]; simpl; [done|].
  destruct (task_id x =? i); [done|].
  destruct (complete_task i l) as [l' found]. simpl in *. by rewrite IH.
Qed.

(** X4.  [complete_task] keeps the identifiers and the order of the
    collection, never clears the completed flag of a task, and is
    idempotent: a second call with the same identifier changes nothing
    and returns what the first returned. *)
Theorem complete_task_idempotent (i : Z) (l : list Task) :
  map task_id (fst (complete_task i l)) = map task_id l
  ∧ Forall2 (fun t t' => completed t = true → completed t' = true)
      l (fst (complete_task i l))
  ∧ complete_task i (fst (complete_task i l))
    = (fst (complete_task i l), snd (complete_task i l)).
Proof.
  split; [apply complete_task_ids|]. split.
  - induction l as [|x l IH]; simpl; [constructor|].
    destruct (task_id x =? i).
    + constructor; [done|]. apply Forall2_same_length_lookup_2; [done|].
      intros j t t' Ht Ht'. congruence.
    + destruct (complete_task i l) as [l' found]. by constructor.
  - induction l as [|x l IH]; simpl; [done|].
    destruct (task_id x =? i) eqn:E; simpl.
    + by rewrite E.
    + destruct (complete_task i l) as [l' found]. simpl in *.
      by rewrite E, IH.
Qed.

Lemma get_task_by_id_app (i : Z) (l k : list Task) :
  get_task_by_id i (l ++ k)
  = match get_task_by_id i l with
    | Some t => Some t
    | None => get_task_by_id i k
    end.
Proof.
  induction l as [|x l IH]; simpl; [done|]. by destruct (task_id x =? i).
Qed.

Lemma get_task_by_id_None (i : Z) (l : list Task) :
  Forall (fun t => task_id t ≠ i) l → get_task_by_id i l = None.
Proof.
  induction 1 as [|x l Hx Hl IH]; simpl; [done|].
  by destruct (Z.eqb_spec (task_id x) i).
Qed.

(** X5.  The task [add_task] returns is the one [get_task_by_id] finds
    under its identifier afterwards, and the lookup of every other
    identifier gives what it gave before. *)
Theorem get_task_by_id_add_task (now ttl : string) (prio due : option string)
    (l : list Task) :
  get_task_by_id (task_id (snd (add_task now ttl prio due l)))
    (fst (add_task now ttl prio due l))
  = Some (snd (add_task now ttl prio due l))
  ∧ ∀ j, j ≠ task_id (snd (add_task now ttl prio due l)) →
      get_task_by_id j (fst (add_task now ttl prio due l)) = get_task_by_id j l.
Proof.
  simpl. rewrite !get_task_by_id_app. split.
  - rewrite get_task_by_id_None; [by simpl; rewrite Z.eqb_refl|].
    apply Forall_forall. intros t Ht. apply generate_id_above in Ht. lia.
  - intros j Hj. rewrite get_task_by_id_app.
    destruct (get_task_by_id j l); [done|]. simpl.
    by destruct (Z.eqb_spec (_generate_id l) j).
Qed.

Lemma delete_task_sublist (i : Z) (l : list Task) :
  fst (delete_task i l) `sublist_of` l.
Proof.
  induction l as [|t l IH]; simpl; [done|].
  destruct (task_id t =? i).
  - simpl. by apply sublist_cons.
  - destruct (delete_task i l) as [l' found]. simpl in *. by apply sublist_skip.
Qed.

Lemma delete_task_other (i j : Z) (l : list Task) :
  j ≠ i → get_task_by_id j (fst (delete_task i l)) = get_task_by_id j l.
Proof.
  intros Hj. induction l as [|x l IH]; simpl; [done|].
  destruct (Z.eqb_spec (task_id x) i) as [Hx|Hx]; simpl.
  - destruct (Z.eqb_spec (task_id x) j); [lia|done].
  - destruct (delete_task i l) as [l' found]. simpl in *.
    destruct (task_id x =? j); [done|apply IH].
Qed.

Lemma unique_ids_sublist (l k : list Task) :
  l `sublist_of` k → unique_ids k → unique_ids l.
Proof.
  unfold unique_ids. intros Hsub Hk. apply (sublist_NoDup _ _ Hk).
  change (task_id <$> l `sublist_of` task_id <$> k). by apply fmap_sublist.
Qed.

(** X6.  In a collection without duplicate identifiers, after
    [delete_task] no task has the deleted identifier any more, so
    [get_task_by_id] finds none; the identifiers stay without duplicates.
    The lookup of every other identifier gives what it gave before. *)
Theorem delete_task_unique_ids (i : Z) (l : list Task) :
  unique_ids l →
  unique_ids (fst (delete_task i l))
  ∧ get_task_by_id i (fst (delete_task i l)) = None
  ∧ ∀ j, j ≠ i →
      get_task_by_id j (fst (delete_task i l)) = get_task_by_id j l.
Proof.
  intros Hu. split; [by eapply unique_ids_sublist, Hu; apply delete_task_sublist|].
  split; [|intros j Hj; by apply delete_task_other].
  pose proof (delete_task_run i l) as Hdel.
  destruct (get_task_by_id i l) as [t|] eqn:Hget.
  - destruct Hdel as (pre & post & (-> & Ht & Hpre) & ->). simpl.
    rewrite get_task_by_id_app, (get_task_by_id_None i pre Hpre).
    apply get_task_by_id_None. apply Forall_forall. intros x Hx Hxi.
    unfold unique_ids in Hu. rewrite map_app in Hu. simpl in Hu.
    apply NoDup_app in Hu as (_ & _ & Hu). apply NoDup_cons in Hu as [Hu _].
    apply Hu. rewrite Ht, <-Hxi.
    change (task_id x ∈ task_id <$> post). by apply list_elem_of_fmap_2.
  - rewrite Hdel. simpl. exact Hget.
Qed.

Lemma delete_task_unique_ids_witness :
  unique_ids two_tasks
  ∧ get_task_by_id 1 (fst (delete_task 1 two_tasks)) = None
  ∧ get_task_by_id 2 (fst (delete_task 1 two_tasks)) = get_task_by_id 2 two_tasks.
Proof.
  assert (Hu : unique_ids two_tasks).
  { unfold unique_ids. simpl. apply NoDup_cons. split; [|apply NoDup_singleton].
    intros Hin. apply list_elem_of_singleton in Hin. discriminate. }
  destruct (delete_task_unique_ids 1 two_tasks Hu) as (_ & Hnone & Hother).
  split; [exact Hu|]. split; [exact Hnone|]. apply Hother. discriminate.
Defined.

(** ** The invariants of the collection *)

Lemma add_task_unique_ids (now ttl : string) (prio due : option string)
    (l : list Task) :
  unique_ids l → unique_ids (fst (add_task now ttl prio due l)).
Proof.
  unfold unique_ids. simpl. rewrite map_app. simpl. intros Hu.
  apply NoDup_app. split; [done|]. split; [|apply NoDup_singleton].
  intros i Hi Hg. apply list_elem_of_singleton in Hg. subst i.
  change (_generate_id l ∈ task_id <$> l) in Hi.
  apply list_elem_of_fmap in Hi as (t & Heq & Ht).
  apply generate_id_above in Ht. lia.
Qed.

Lemma generate_id_positive (l : list Task) :
  positive_ids l → 1 ≤ _generate_id l.
Proof.
  intros Hp. destruct l as [|t l]; [simpl; lia|].
  destruct (generate_id_attained (t :: l)) as (x & Hx & ->); [done|].
  unfold positive_ids in Hp. rewrite Forall_forall in Hp.
  specialize (Hp x Hx). lia.
Qed.

Lemma delete_task_Forall (P : Task → Prop) (i : Z) (l : list Task) :
  Forall P l → Forall P (fst (delete_task i l)).
Proof.
  induction 1 as [|x l Hx Hl IH]; simpl; [constructor|].
  destruct (task_id x =? i); [done|].
  destruct (delete_task i l) as [l' found]. simpl in *. by constructor.
Qed.

Lemma apply_op_invariant (o : op) (l : list Task) :
  unique_ids l ∧ positive_ids l →
  unique_ids (apply_op l o) ∧ positive_ids (apply_op l o).
Proof.
  intros [Hu Hp]. destruct o as [now ttl prio due|i|i]; unfold apply_op.
  - split; [by apply add_task_unique_ids|].
    unfold positive_ids. simpl. apply Forall_app. split; [done|].
    constructor; [|constructor]. simpl. by apply generate_id_positive.
  - split.
    + unfold unique_ids. by rewrite complete_task_ids.
    + unfold positive_ids in *. rewrite Forall_forall in *. intros t Ht.
      apply (list_elem_of_fmap_2 task_id) in Ht.
      change (task_id <$> ?l) with (map task_id l) in Ht.
      rewrite complete_task_ids in Ht.
      change (task_id t ∈ task_id <$> l) in Ht.
      apply list_elem_of_fmap in Ht as (t' & -> & Ht'). by apply Hp.
  - split; [by eapply unique_ids_sublist, Hu; apply delete_task_sublist|].
    by apply delete_task_Forall.
Qed.

(** X7.  Whatever sequence of [add_task], [complete_task] and
    [delete_task] calls is run on a collection whose identifiers are
    positive and without duplicates, the identifiers of the collection
    are positive and without duplicates afterwards; so they are for every
    collection built by such calls from the empty one. *)
Theorem ops_keep_ids_unique (ops : list op) (l : list Task) :
  unique_ids l → positive_ids l →
  unique_ids (run_ops ops l) ∧ positive_ids (run_ops ops l).
Proof.
  intros Hu Hp. assert (Hinv : unique_ids l ∧ positive_ids l) by done.
  clear Hu Hp. revert l Hinv. unfold run_ops.
  induction ops as [|o ops IH]; intros l Hinv; simpl; [done|].
  by apply IH, apply_op_invariant.
Qed.

Lemma ops_keep_ids_unique_witness :
  unique_ids [] ∧ positive_ids []
  ∧ unique_ids (run_ops [OpAdd "2025-01-01 10:00:00" "Buy milk" None None;
                         OpAdd "2025-01-01 10:00:01" "Clean" None None;
                         OpDelete 2; OpComplete 1;
                         OpAdd "2025-01-01 10:00:02" "Pay bills" None None] [])
  ∧ positive_ids (run_ops [OpAdd "2025-01-01 10:00:00" "Buy milk" None None;
                           OpAdd "2025-01-01 10:00:01" "Clean" None None;
                           OpDelete 2; OpComplete 1;
                           OpAdd "2025-01-01 10:00:02" "Pay bills" None None] []).
Proof.
  assert (Hu : unique_ids []) by apply NoDup_nil_2.
  assert (Hp : positive_ids []) by apply Forall_nil_2.
  split; [exact Hu|]. split; [exact Hp|].
  exact (ops_keep_ids_unique _ [] Hu Hp).
Defined.

(** ** Listing and statistics *)

Lemma filter_filter (f g : Task → bool) (l : list Task) :
  List.filter g (List.filter f l) = List.filter (fun t => f t && g t) l.
Proof.
  induction l as [|x l IH]; simpl; [done|].
  destruct (f x); simpl; [|done]. destruct (g x); by rewrite IH.
Qed.

Lemma filter_true (l : list Task) : List.filter (fun _ => true) l = l.
Proof. induction l as [|x l IH]; simpl; [done|]. by rewrite IH. Qed.

Lemma priority_is_spec (p : string) (t : Task) :
  priority_is p t = true ↔ priority t = Some p.
Proof.
  unfold priority_is. destruct (priority t) as [q|]; [|done].
  rewrite String.eqb_eq. split; congruence.
Qed.

(** [list_tasks] as one filter. *)
Lemma list_tasks_filter (status : option bool) (prio : option string)
    (l : list Task) :
  list_tasks status prio l
  = List.filter
      (fun t =>
         match status with Some st => Bool.eqb (completed t) st | None => true end
         && match prio with
            | Some p => if truthy p then priority_is p t else true
            | None => true
            end) l.
Proof.
  unfold list_tasks. destruct status as [st|], prio as [p|];
    try destruct (truthy p); rewrite ?filter_filter; try done.
  - apply filter_ext. intros t. by rewrite andb_true_r.
  - apply filter_ext. intros t. by rewrite andb_true_r.
  - by rewrite filter_true.
  - by rewrite filter_true.
Qed.

(** X8.  [list_tasks] keeps, in their order, exactly the tasks that pass
    both filters: the completed flag equal to [status] when a status is
    given, and the priority equal to [priority] when a priority other
    than the empty string is given.  The empty string as priority filters
    nothing. *)
Theorem list_tasks_selects (status : option bool) (prio : option string)
    (l : list Task) :
  selects
    (fun t =>
       (∀ st, status = Some st → completed t = st)
       ∧ (∀ p, prio = Some p → p ≠ "" → priority t = Some p))
    l (list_tasks status prio l)
  ∧ list_tasks status (Some "") l = list_tasks status None l.
Proof.
  split; [|done]. rewrite list_tasks_filter. apply filter_selects. intros t.
  rewrite andb_true_iff. split.
  - intros [Hst Hp]. split.
    + intros st ->. by apply Bool.eqb_prop.
    + intros p -> Hne. apply truthy_nonempty in Hne. rewrite Hne in Hp.
      by apply priority_is_spec.
  - intros [Hst Hp]. split.
    + destruct status as [st|]; [|done]. rewrite (Hst st eq_refl).
      apply Bool.eqb_reflx.
    + destruct prio as [p|]; [|done]. destruct (truthy p) eqn:E; [|done].
      apply priority_is_spec, Hp; [done|]. by apply truthy_nonempty.
Qed.

(** X9.  The two filters of [list_tasks] compose in either order: listing
    by status and priority is listing by priority what was listed by
    status, and the other way round; without filters the whole collection
    is returned. *)
Theorem list_tasks_compose (status : option bool) (prio : option string)
    (l : list Task) :
  list_tasks status prio l = list_tasks None prio (list_tasks status None l)
  ∧ list_tasks status prio l = list_tasks status None (list_tasks None prio l)
  ∧ list_tasks None None l = l.
Proof.
  split; [|split; [|done]].
  - by destruct status, prio.
  - rewrite !list_tasks_filter, filter_filter. apply filter_ext. intros t.
    simpl. rewrite !andb_true_r. apply andb_comm.
Qed.

Lemma sum_ones_filter (cond : Task → bool) (l : list Task) :
  sum_ones cond l = Z.of_nat (length (List.filter cond l)).
Proof.
  unfold sum_ones.
  assert (Hgen : ∀ acc,
    foldl (fun acc task => if cond task then acc + 1 else acc) acc l
    = acc + Z.of_nat (length (List.filter cond l))).
  { induction l as [|x l IH]; intros acc; simpl; [lia|].
    rewrite IH. destruct (cond x); simpl; lia. }
  by rewrite Hgen.
Qed.

Lemma filter_length_split (cond : Task → bool) (l : list Task) :
  (length (List.filter cond l) + length (List.filter (fun t => negb (cond t)) l)
   = length l)%nat.
Proof.
  induction l as [|x l IH]; simpl; [done|]. destruct (cond x); simpl; lia.
Qed.

Lemma filter_length_le (f g : Task → bool) (l : list Task) :
  (∀ t, f t = true → g t = true) →
  (length (List.filter f l) ≤ length (List.filter g l))%nat.
Proof.
  intros Hfg. induction l as [|x l IH]; simpl; [done|].
  destruct (f x) eqn:E.
  - rewrite (Hfg x E). simpl. lia.
  - destruct (g x); simpl; lia.
Qed.

(** X10.  The numbers of [get_statistics] are the sizes of the listings
    of [list_tasks]: all tasks, the completed ones, the active ones, and
    the active ones of priority ["високий"]; completed and active add up
    to the total, and the high-priority number is at most the active
    one. *)
Theorem get_statistics_counts (l : list Task) :
  stat_total (get_statistics l) = Z.of_nat (length l)
  ∧ stat_completed (get_statistics l)
    = Z.of_nat (length (list_tasks (Some true) None l))
  ∧ stat_active (get_statistics l)
    = Z.of_nat (length (list_tasks (Some false) None l))
  ∧ stat_high_priority (get_statistics l)
    = Z.of_nat (length (list_tasks (Some false) (Some "високий") l))
  ∧ stat_completed (get_statistics l) + stat_active (get_statistics l)
    = stat_total (get_statistics l)
  ∧ 0 ≤ stat_high_priority (get_statistics l) ≤ stat_active (get_statistics l).
Proof.
  assert (Hdone : List.filter (fun t => Bool.eqb (completed t) true) l
                  = List.filter completed l).
  { apply filter_ext. intros t. by destruct (completed t). }
  assert (Hactive : List.filter (fun t => Bool.eqb (completed t) false) l
                    = List.filter (fun t => negb (completed t)) l).
  { apply filter_ext. intros t. by destruct (completed t). }
  pose proof (filter_length_split completed l) as Hsplit.
  assert (Hhigh : list_tasks (Some false) (Some "високий") l
    = List.filter (fun t => negb (completed t) && priority_is "високий" t) l).
  { rewrite list_tasks_filter. apply filter_ext. intros t.
    by destruct (completed t). }
  assert (Hle : (length (List.filter
      (fun t => negb (completed t) && priority_is "високий" t) l)
    ≤ length (List.filter (fun t => negb (completed t)) l))%nat).
  { apply filter_length_le. intros t Ht. by apply andb_true_iff in Ht as [? _]. }
  unfold get_statistics. cbn [stat_total stat_completed stat_active stat_high_priority].
  rewrite !sum_ones_filter, Hhigh.
  unfold list_tasks. rewrite Hdone, Hactive.
  repeat split; lia.
Qed.

Lemma sum_ones_app (cond : Task → bool) (l k : list Task) :
  sum_ones cond (l ++ k) = sum_ones cond l + sum_ones cond k.
Proof. rewrite !sum_ones_filter, List.filter_app, length_app. lia. Qed.

Lemma sum_ones_cons (cond : Task → bool) (t : Task) (l : list Task) :
  sum_ones cond (t :: l) = (if cond t then 1 else 0) + sum_ones cond l.
Proof. rewrite !sum_ones_filter. simpl. destruct (cond t); simpl; lia. Qed.

(** X11.  How the statistics move with the collection.  [add_task] adds
    one to the total and to the active tasks and leaves the completed
    number.  [complete_task] on an identifier whose first task is active
    moves one from active to completed (and takes one from the
    high-priority number when that task has priority ["високий"]); on a
    task that is completed already, or on an unknown identifier, the
    statistics stay as they are. *)
Theorem get_statistics_update (now ttl : string) (prio due : option string)
    (i : Z) (l : list Task) :
  (let s := get_statistics l in
   let s' := get_statistics (fst (add_task now ttl prio due l)) in
   stat_total s' = stat_total s + 1
   ∧ stat_completed s' = stat_completed s
   ∧ stat_active s' = stat_active s + 1)
  ∧ (let s := get_statistics l in
     let s' := get_statistics (fst (complete_task i l)) in
     match get_task_by_id i l with
     | Some t =>
         if completed t then s' = s
         else stat_total s' = stat_total s
              ∧ stat_completed s' = stat_completed s + 1
              ∧ stat_active s' = stat_active s - 1
              ∧ stat_high_priority s'
                = stat_high_priority s
                  - (if priority_is "високий" t then 1 else 0)
     | None => s' = s
     end).
Proof.
  split.
  - unfold get_statistics. simpl.
    rewrite length_app, sum_ones_app, sum_ones_cons. simpl.
    change (sum_ones completed []) with 0. repeat split; lia.
  - pose proof (complete_task_run i l) as Hc. cbv zeta.
    destruct (get_task_by_id i l) as [t|]; [|by rewrite Hc].
    destruct Hc as (pre & post & (-> & _ & _) & ->). cbn [fst].
    destruct (completed t) eqn:Ht.
    + replace (mark_completed t) with t; [done|]. destruct t. simpl in Ht.
      by subst.
    + unfold get_statistics.
      cbn [stat_total stat_completed stat_active stat_high_priority].
      rewrite !length_app, !sum_ones_app, !sum_ones_cons.
      change (priority_is "високий" (mark_completed t))
        with (priority_is "високий" t).
      cbn [mark_completed completed length negb andb]. rewrite Ht.
      cbn [negb andb]. destruct (priority_is "високий" t); repeat split; lia.
Qed.

(** ** Sorting, for every criterion *)

Lemma sort_by_ext (le le' : Task → Task → bool) (l : list Task) :
  (∀ a b, le a b = le' a b) → sort_by le l = sort_by le' l.
Proof.
  intros Hle. induction l as [|x l IH]; simpl; [done|]. rewrite IH.
  generalize (sort_by le' l). intros r.
  induction r as [|y r IHr]; simpl; [done|]. by rewrite Hle, IHr.
Qed.

(** [sort_tasks] is the sort by [sort_key] for a criterion it knows, and
    returns its argument for any other. *)
Lemma sort_tasks_by_sort_key `{Builtins} (self_tasks l : list Task)
    (by_ : string) (reverse : bool) :
  sort_tasks self_tasks (Some l) by_ reverse
  = if known_criterion by_
    then sort_by (key_le key_leb (sort_key by_) reverse) l
    else l.
Proof.
  unfold sort_tasks, known_criterion, sorted.
  destruct (String.eqb by_ "id") eqn:E1.
  { apply sort_by_ext. intros a b. unfold key_le, sort_key. by rewrite E1. }
  destruct (String.eqb by_ "title") eqn:E2.
  { apply sort_by_ext. intros a b. unfold key_le, sort_key. by rewrite E1, E2. }
  destruct (String.eqb by_ "priority") eqn:E3.
  { apply sort_by_ext. intros a b. unfold key_le, sort_key. by rewrite E1, E2, E3. }
  destruct (String.eqb by_ "due_date") eqn:E4.
  { apply sort_by_ext. intros a b. unfold key_le, sort_key.
    by rewrite E1, E2, E3, E4. }
  destruct (String.eqb by_ "created_at") eqn:E5; [|done].
  apply sort_by_ext. intros a b. unfold key_le, sort_key.
  by rewrite E1, E2, E3, E4, E5.
Qed.

Lemma string_leb_refl (x : string) : String.leb x x = true.
Proof. by destruct (String.leb_total x x). Qed.

Lemma key_leb_refl (x : Z + string) : key_leb x x = true.
Proof. destruct x; simpl; [apply Z.leb_refl|apply string_leb_refl]. Qed.

(** The keys of one criterion are all numbers or all strings. *)
Lemma sort_key_side `{Builtins} (by_ : string) :
  (∀ t, ∃ n, sort_key by_ t = inl n) ∨ (∀ t, ∃ x, sort_key by_ t = inr x).
Proof.
  unfold sort_key.
  destruct (String.eqb by_ "id"); [left; eauto|].
  destruct (String.eqb by_ "title"); [right; eauto|].
  destruct (String.eqb by_ "priority"); [left; eauto|].
  destruct (String.eqb by_ "due_date"); [right; eauto|].
  destruct (String.eqb by_ "created_at"); [right; eauto|left; eauto].
Qed.

Lemma sort_key_le_total `{Builtins} (by_ : string) (reverse : bool) (a b : Task) :
  key_le key_leb (sort_key by_) reverse a b = true
  ∨ key_le key_leb (sort_key by_) reverse b a = true.
Proof.
  unfold key_le.
  destruct (sort_key_side by_) as [Hs|Hs];
    destruct (Hs a) as [x ->], (Hs b) as [y ->]; simpl.
  - destruct reverse; rewrite !Z.leb_le; lia.
  - destruct reverse; apply String.leb_total.
Qed.

Lemma sort_key_le_trans `{Builtins} (by_ : string) (reverse : bool)
    (a b c : Task) :
  key_le key_leb (sort_key by_) reverse a b = true →
  key_le key_leb (sort_key by_) reverse b c = true →
  key_le key_leb (sort_key by_) reverse a c = true.
Proof.
  unfold key_le.
  destruct (sort_key_side by_) as [Hs|Hs];
    destruct (Hs a) as [x ->], (Hs b) as [y ->], (Hs c) as [z ->]; simpl.
  - destruct reverse; rewrite !Z.leb_le; lia.
  - destruct reverse; intros H1 H2; by apply (string_leb_trans _ y).
Qed.

(** X12.  For every criterion and both directions, [sort_tasks] returns a
    rearrangement of the tasks it was given (the manager's collection
    when none is given): no task is lost, added or changed.  For a
    criterion it does not know it returns the tasks as they are. *)
Theorem sort_tasks_permutation `{Builtins} (self_tasks : list Task)
    (tasks : option (list Task)) (by_ : string) (reverse : bool) :
  sort_tasks self_tasks tasks by_ reverse ≡ₚ default self_tasks tasks
  ∧ sort_tasks self_tasks None by_ reverse
    = sort_tasks self_tasks (Some self_tasks) by_ reverse
  ∧ (known_criterion by_ = false →
       sort_tasks self_tasks tasks by_ reverse = default self_tasks tasks).
Proof.
  assert (Hsome : sort_tasks self_tasks tasks by_ reverse
                  = sort_tasks self_tasks (Some (default self_tasks tasks)) by_ reverse)
    by (by destruct tasks).
  rewrite Hsome, sort_tasks_by_sort_key. split; [|split; [done|]].
  - destruct (known_criterion by_); [apply sort_by_perm|done].
  - by intros ->.
Qed.

Lemma sort_tasks_permutation_witness :
  known_criterion "deadline" = false
  ∧ @sort_tasks test_builtins [] (Some priority_tasks) "deadline" true
    = priority_tasks.
Proof.
  split; [reflexivity|].
  exact (proj2 (proj2 (@sort_tasks_permutation test_builtins []
                         (Some priority_tasks) "deadline" true)) eq_refl).
Defined.

(** X13.  For every criterion it knows, [sort_tasks] returns the tasks in
    the order of their keys: ascending without [reverse] (every task's
    key is at most the key of every task after it), descending with
    it. *)
Theorem sort_tasks_sorted `{Builtins} (self_tasks l : list Task)
    (by_ : string) (reverse : bool) :
  known_criterion by_ = true →
  StronglySorted
    (fun a b =>
       (if reverse then key_leb (sort_key by_ b) (sort_key by_ a)
        else key_leb (sort_key by_ a) (sort_key by_ b)) = true)
    (sort_tasks self_tasks (Some l) by_ reverse).
Proof.
  intros Hk. rewrite sort_tasks_by_sort_key, Hk.
  exact (sort_by_sorted _ (sort_key_le_total by_ reverse)
           (sort_key_le_trans by_ reverse) l).
Qed.

Lemma sort_tasks_sorted_witness :
  known_criterion "priority" = true
  ∧ StronglySorted
      (fun a b =>
         key_leb (@sort_key test_builtins "priority" b)
           (@sort_key test_builtins "priority" a) = true)
      (@sort_tasks test_builtins [] (Some priority_tasks) "priority" true).
Proof.
  split; [reflexivity|].
  exact (@sort_tasks_sorted test_builtins [] priority_tasks "priority" true
           eq_refl).
Defined.

(** X14.  [sort_tasks] is stable in both directions: the tasks that have
    the same key under the criterion come out in the order they came in,
    with [reverse] as without. *)
Theorem sort_tasks_stable `{Builtins} (self_tasks l : list Task)
    (by_ : string) (reverse : bool) (k : Z + string) :
  List.filter (fun t => bool_decide (sort_key by_ t = k))
    (sort_tasks self_tasks (Some l) by_ reverse)
  = List.filter (fun t => bool_decide (sort_key by_ t = k)) l.
Proof.
  rewrite sort_tasks_by_sort_key. destruct (known_criterion by_); [|done].
  apply sort_by_filter. intros a b Ha Hb.
  apply bool_decide_eq_true in Ha, Hb. unfold key_le. rewrite Ha, Hb.
  destruct reverse; apply key_leb_refl.
Qed.

Lemma sort_by_fixed (le : Task → Task → bool) (l : list Task) :
  StronglySorted (fun a b => le a b = true) l → sort_by le l = l.
Proof.
  induction 1 as [|x l Hl IH Hx]; [done|].
  cbn [sort_by foldr]. fold (sort_by le l). rewrite IH.
  destruct l as [|y l]; [done|]. simpl.
  apply Forall_inv in Hx. by rewrite Hx.
Qed.

(** X15.  Sorting is idempotent: sorting the result of [sort_tasks] again
    by the same criterion and direction gives the same list. *)
Theorem sort_tasks_idempotent `{Builtins} (self_tasks l : list Task)
    (by_ : string) (reverse : bool) :
  sort_tasks self_tasks
    (Some (sort_tasks self_tasks (Some l) by_ reverse)) by_ reverse
  = sort_tasks self_tasks (Some l) by_ reverse.
Proof.
  rewrite !sort_tasks_by_sort_key. destruct (known_criterion by_); [|done].
  apply sort_by_fixed.
  exact (sort_by_sorted _ (sort_key_le_total by_ reverse)
           (sort_key_le_trans by_ reverse) l).
Qed.

(** The two tasks of rank 0 keep their order in both directions. *)
Example sort_stable_run :
  map task_id
    (List.filter (fun t => bool_decide (@sort_key test_builtins "priority" t = inl 0))
       (@sort_tasks test_builtins [] (Some priority_tasks) "priority" true))
  = [1; 3]
  ∧ map task_id
      (List.filter (fun t => bool_decide (@sort_key test_builtins "priority" t = inl 0))
         (@sort_tasks test_builtins [] (Some priority_tasks) "priority" false))
    = [1; 3].
Proof. split; vm_compute; reflexivity. Qed.

(** ** Deadlines *)

Section SortedByKey.
Context {A : Type} (key : A → Z).

Lemma insert_by_perm (x : A) (l : list A) :
  insert_by (fun a b => key a <=? key b) x l ≡ₚ x :: l.
Proof.
  induction l as [|y l IH]; simpl; [done|].
  destruct (key x <=? key y); [done|]. rewrite IH. apply Permutation_swap.
Qed.

Lemma sorted_by_key_perm (l : list A) : sorted_by_key key l ≡ₚ l.
Proof.
  induction l as [|x l IH]; simpl; [done|].
  rewrite insert_by_perm. by rewrite IH.
Qed.

Lemma insert_by_sorted (x : A) (l : list A) :
  StronglySorted (fun a b => key a ≤ key b) l →
  StronglySorted (fun a b => key a ≤ key b)
    (insert_by (fun a b => key a <=? key b) x l).
Proof.
  induction 1 as [|y l Hl IH Hy]; simpl.
  - repeat constructor.
  - destruct (Z.leb_spec (key x) (key y)) as [Hle|Hgt].
    + constructor; [by constructor|]. constructor; [done|].
      eapply Forall_impl; [exact Hy|]. intros z Hz. simpl in Hz. lia.
    + constructor; [done|]. rewrite insert_by_perm. constructor; [lia|done].
Qed.

Lemma sorted_by_key_sorted (l : list A) :
  StronglySorted (fun a b => key a ≤ key b) (sorted_by_key key l).
Proof.
  induction l as [|x l IH]; simpl; [constructor|]. by apply insert_by_sorted.
Qed.

Lemma insert_by_filter (k : Z) (x : A) (l : list A) :
  List.filter (fun a => key a =? k) (insert_by (fun a b => key a <=? key b) x l)
  = List.filter (fun a => key a =? k) (x :: l).
Proof.
  induction l as [|y l IH]; [done|].
  cbn [insert_by]. destruct (Z.leb_spec (key x) (key y)) as [Hle|Hgt]; [done|].
  cbn [List.filter] in *. rewrite IH.
  destruct (Z.eqb_spec (key x) k), (Z.eqb_spec (key y) k); try done. lia.
Qed.

Lemma sorted_by_key_filter (k : Z) (l : list A) :
  List.filter (fun a => key a =? k) (sorted_by_key key l)
  = List.filter (fun a => key a =? k) l.
Proof.
  induction l as [|x l IH]; [done|].
  cbn [sorted_by_key foldr]. rewrite insert_by_filter.
  cbn [List.filter]. fold (sorted_by_key key l). by rewrite IH.
Qed.

End SortedByKey.

(** The pairs the loop of [get_upcoming_tasks] collects. *)
Lemma upcoming_pairs_spec `{Calendar} (today : date) (days : Z) (l : list Task)
    (task : Task) (n : Z) :
  (task, n) ∈ upcoming_pairs today days l ↔
  task ∈ l ∧ completed task = false
  ∧ ∃ d due, due_date task = Some d ∧ d ≠ "" ∧ strptime_date d = Some due
      ∧ n = days_between due today ∧ 0 ≤ n ≤ days.
Proof.
  induction l as [|x l IH].
  - simpl. split; [intros Hin; by apply elem_of_nil in Hin|].
    intros (Hin & _). by apply elem_of_nil in Hin.
  - assert (Hskip : ¬ (x = task ∧ completed task = false
      ∧ ∃ d due, due_date task = Some d ∧ d ≠ "" ∧ strptime_date d = Some due
          ∧ n = days_between due today ∧ 0 ≤ n ≤ days) →
      ((task, n) ∈ upcoming_pairs today days l ↔
       task ∈ x :: l ∧ completed task = false
       ∧ ∃ d due, due_date task = Some d ∧ d ≠ "" ∧ strptime_date d = Some due
           ∧ n = days_between due today ∧ 0 ≤ n ≤ days)).
    { intros Hno. rewrite IH, elem_of_cons. split; [tauto|].
      intros ([->|Hin] & Hrest); [|tauto]. exfalso. apply Hno. tauto. }
    cbn [upcoming_pairs].
    destruct (completed x) eqn:Hc; cbn [orb].
    { apply Hskip. intros (<- & Hc' & _). congruence. }
    destruct (due_date x) as [d|] eqn:Hd; cbn [truthy_opt negb].
    2:{ apply Hskip. intros (<- & _ & d & due & Hd' & _). congruence. }
    destruct (truthy d) eqn:Ht; cbn [negb].
    2:{ apply Hskip. intros (<- & _ & d' & due & Hd' & Hne & _).
        apply truthy_nonempty in Hne. congruence. }
    cbn [mbind option_bind].
    destruct (strptime_date d) as [due|] eqn:Hp.
    2:{ apply Hskip. intros (<- & _ & d' & due & Hd' & _ & Hp' & _). congruence. }
    cbv zeta.
    destruct ((0 <=? days_between due today) && (days_between due today <=? days))
      eqn:Hw.
    + apply andb_true_iff in Hw as [Hw1 Hw2].
      apply Z.leb_le in Hw1, Hw2.
      rewrite elem_of_cons, IH, elem_of_cons. split.
      * intros [[= -> ->]|Hin]; [|tauto].
        split; [by left|]. split; [done|]. exists d, due.
        split; [done|]. split; [by apply truthy_nonempty|done].
      * intros ([->|Hin] & Hc' & d' & due' & Hd' & Hne & Hp' & Hn & Hr);
          [|right; split; [done|]; split; [done|]; by exists d', due'].
        left. f_equal. congruence.
    + apply Hskip. intros (<- & _ & d' & due' & Hd' & _ & Hp' & Hn & Hr).
      assert (due' = due) as -> by congruence. subst n.
      apply andb_false_iff in Hw as [Hw|Hw]; apply Z.leb_gt in Hw; lia.
Qed.

(** The pairs [get_upcoming_tasks] returns are the pairs of the loop. *)
Lemma get_upcoming_tasks_elem `{Calendar} (today : date) (days : Z)
    (l : list Task) (task : Task) (n : Z) :
  (task, n) ∈ get_upcoming_tasks today days l ↔
  task ∈ l ∧ completed task = false
  ∧ ∃ d due, due_date task = Some d ∧ d ≠ "" ∧ strptime_date d = Some due
      ∧ n = days_between due today ∧ 0 ≤ n ≤ days.
Proof.
  rewrite <-upcoming_pairs_spec. unfold get_upcoming_tasks.
  by rewrite (sorted_by_key_perm snd).
Qed.

(** X16.  [get_upcoming_tasks] returns exactly the pairs (task, days
    left) of the tasks that are not completed and have a due date that
    parses and lies between today and [days] days from today, both
    included; completed tasks, tasks without a due date and tasks whose
    due date does not parse are left out. *)
Theorem get_upcoming_tasks_exact `{Calendar} (today : date) (days : Z)
    (l : list Task) (task : Task) (n : Z) :
  (task, n) ∈ get_upcoming_tasks today days l ↔
  task ∈ l ∧ completed task = false
  ∧ ∃ d due, due_date task = Some d ∧ d ≠ "" ∧ strptime_date d = Some due
      ∧ n = days_between due today ∧ 0 ≤ n ≤ days.
Proof. apply get_upcoming_tasks_elem. Qed.

(** X17.  The pairs of [get_upcoming_tasks] come in ascending order of
    the days left, and the tasks with the same number of days left in the
    order of the collection. *)
Theorem get_upcoming_tasks_sorted `{Calendar} (today : date) (days : Z)
    (l : list Task) (k : Z) :
  StronglySorted (fun a b => snd a ≤ snd b) (get_upcoming_tasks today days l)
  ∧ List.filter (fun a => snd a =? k) (get_upcoming_tasks today days l)
    = List.filter (fun a => snd a =? k) (upcoming_pairs today days l)
  ∧ map fst (upcoming_pairs today days l) `sublist_of` l.
Proof.
  split; [apply sorted_by_key_sorted|]. split; [apply sorted_by_key_filter|].
  induction l as [|x l IH]; [done|]. cbn [upcoming_pairs].
  destruct (completed x || negb (truthy_opt (due_date x)));
    [by apply sublist_cons|].
  destruct (due_date x ≫= strptime_date) as [due|]; [|by apply sublist_cons].
  destruct ((0 <=? days_between due today) && (days_between due today <=? days));
    [|by apply sublist_cons].
  simpl. by apply sublist_skip.
Qed.

(** X18.  A negative window gives no task, and a wider window gives every
    pair the narrower one gave. *)
Theorem get_upcoming_tasks_window `{Calendar} (today : date) (days days' : Z)
    (l : list Task) :
  (days < 0 → get_upcoming_tasks today days l = [])
  ∧ (days ≤ days' →
     ∀ p, p ∈ get_upcoming_tasks today days l →
          p ∈ get_upcoming_tasks today days' l).
Proof.
  split.
  - intros Hneg. destruct (get_upcoming_tasks today days l) as [|[task n] r] eqn:E;
      [done|].
    assert (Hin : (task, n) ∈ get_upcoming_tasks today days l)
      by (rewrite E; constructor).
    apply get_upcoming_tasks_elem in Hin as (_ & _ & d & due & _ & _ & _ & _ & Hr).
    lia.
  - intros Hle [task n]. rewrite !get_upcoming_tasks_elem.
    intros (Hin & Hc & d & due & Hd & Hne & Hp & Hn & Hr).
    split; [done|]. split; [done|]. exists d, due.
    split; [done|]. split; [done|]. split; [done|]. split; [done|]. lia.
Qed.

(** On 2025-06-01, within seven days: the task due today, then the task
    due in five days; within three days only the first; the completed
    task and the task whose due date is no date are left out. *)
Example get_upcoming_tasks_run :
  map (fun p => (task_id (fst p), snd p))
    (@get_upcoming_tasks iso_calendar june_first 7 deadline_tasks)
  = [(3, 0); (1, 5)]
  ∧ map (fun p => (task_id (fst p), snd p))
      (@get_upcoming_tasks iso_calendar june_first 3 deadline_tasks)
    = [(3, 0)].
Proof. split; vm_compute; reflexivity. Qed.

Lemma get_upcoming_tasks_window_witness :
  -1 < 0 ∧ 3 ≤ 7
  ∧ @get_upcoming_tasks iso_calendar june_first (-1) deadline_tasks = []
  ∧ ∀ p, p ∈ @get_upcoming_tasks iso_calendar june_first 3 deadline_tasks →
         p ∈ @get_upcoming_tasks iso_calendar june_first 7 deadline_tasks.
Proof.
  assert (Hneg : -1 < 0) by lia. assert (Hle : 3 ≤ 7) by lia.
  split; [exact Hneg|]. split; [exact Hle|]. split.
  - exact (proj1 (@get_upcoming_tasks_window iso_calendar june_first (-1) 0
                    deadline_tasks) Hneg).
  - exact (proj2 (@get_upcoming_tasks_window iso_calendar june_first 3 7
                    deadline_tasks) Hle).
Defined.

(** ** Records and files, for every collection *)

Lemma drop_empty_truthy (o : option string) :
  drop_empty o ≠ Some "".
Proof.
  destruct o as [x|]; simpl; [|done]. destruct (truthy x) eqn:E; [|done].
  apply truthy_nonempty in E. congruence.
Qed.

Lemma to_dict_drop_empty_fields (t : Task) :
  to_dict (drop_empty_fields t) = to_dict t.
Proof.
  destruct t as [i ttl done created prio due tgs]. unfold to_dict. simpl.
  destruct prio as [p|]; simpl; [destruct (truthy p) eqn:Ep; simpl; rewrite ?Ep|];
    (destruct due as [d|]; simpl;
       [destruct (truthy d) eqn:Ed; simpl; rewrite ?Ed|]); done.
Qed.

Lemma to_dicts_drop_empty_fields (l : list Task) :
  to_dicts (map drop_empty_fields l) = to_dicts l.
Proof.
  unfold to_dicts. f_equal. rewrite map_map. apply map_ext. intros t.
  by rewrite to_dict_drop_empty_fields.
Qed.

Lemma from_dicts_to_dicts_any (l : list Task) :
  from_dicts (to_dicts l) = Ret (map drop_empty_fields l).
Proof.
  rewrite <-to_dicts_drop_empty_fields. apply from_dicts_to_dicts.
  apply Forall_forall. intros t Ht.
  change (t ∈ drop_empty_fields <$> l) in Ht.
  apply list_elem_of_fmap in Ht as (t' & -> & _).
  split; simpl; apply drop_empty_truthy.
Qed.

Section PersistenceProperties.
Context `{Builtins} {text : Type} `{Codec text}.
Implicit Types s : @state text.

(** X19.  For every collection, when [save_tasks] has returned, loading
    gives the collection with each optional field that held the empty
    string set to [None], whatever the loading manager held before; and a
    save of what was loaded, when it returns, leaves the file as it is. *)
Theorem save_load_any_collection s s1 (l0 : list Task) :
  save_tasks s = (Ret tt, s1) →
  load_tasks (set_tasks l0 s1)
  = (Ret true, set_tasks (map drop_empty_fields (tasks s)) s1)
  ∧ ∀ s2, save_tasks (set_tasks (map drop_empty_fields (tasks s)) s1)
          = (Ret tt, s2) →
      s2 = set_tasks (map drop_empty_fields (tasks s)) s1.
Proof.
  rewrite save_tasks_run.
  destruct (json_dump (to_dicts (tasks s))) as [t|partial] eqn:Hw;
    [|by destruct (disk s !! filename s) as [[file|]|]].
  assert (Hs1 : (Ret tt, set_disk (<[filename s := File t]> (disk s)) s)
                = (Ret tt, s1) →
    load_tasks (set_tasks l0 s1)
    = (Ret true, set_tasks (map drop_empty_fields (tasks s)) s1)
    ∧ ∀ s2, save_tasks (set_tasks (map drop_empty_fields (tasks s)) s1)
            = (Ret tt, s2) →
        s2 = set_tasks (map drop_empty_fields (tasks s)) s1).
  { intros [= <-]. split.
    - rewrite load_tasks_run. cbn [disk filename set_tasks set_disk].
      rewrite lookup_insert_eq, (json_load_dump _ _ Hw).
      by rewrite from_dicts_to_dicts_any.
    - intros s2. rewrite save_tasks_run.
      cbn [disk filename tasks set_tasks set_disk].
      rewrite lookup_insert_eq, to_dicts_drop_empty_fields, Hw.
      intros [= <-]. unfold set_disk. cbn [disk filename tasks time].
      by rewrite insert_insert_eq. }
  by destruct (disk s !! filename s) as [[file|]|].
Qed.

(** What a record that [from_dict] accepts holds. *)
Lemma from_dict_inv (data : gmap string value) (t : Task) :
  from_dict (EDict data) = Ret t →
  data !! "title" = Some (VStr (title t))
  ∧ data !! "id" = Some (VInt (task_id t))
  ∧ data !! "completed" = Some (VBool (completed t))
  ∧ data !! "created_at" = Some (VStr (created_at t))
  ∧ (data !! "priority" = None ∨ data !! "priority" = Some VNone →
       priority t = None)
  ∧ (data !! "due_date" = None ∨ data !! "due_date" = Some VNone →
       due_date t = None)
  ∧ (data !! "tags" = None → tags t = []).
Proof.
  unfold from_dict, getitem, get_opt_str, get_tags.
  destruct (data !! "title") as [[| | |ttl|]|]; try done.
  destruct (data !! "priority") as [[| | |prio|]|]; try done;
    (destruct (data !! "due_date") as [[| | |due|]|]; try done);
    (destruct (data !! "id") as [[| |i| |]|]; try done);
    (destruct (data !! "completed") as [[|done| | |]|]; try done);
    (destruct (data !! "created_at") as [[| | |created|]|]; try done);
    (destruct (data !! "tags") as [[| | | |tgs]|]; try done);
    intros [= <-]; simpl; repeat split; try done;
    try (intros [Hx|Hx]; congruence); intros Hx; congruence.
Qed.

(** X20.  A record that [from_dict] accepts has the four keys ["title"],
    ["id"], ["completed"] and ["created_at"], and the task has their
    values; the optional keys may be absent, and then the priority and
    the due date are [None] (as for [null]) and the tags are the empty
    list.  A record without one of the four keys is rejected: it raises,
    and raises [KeyError] when it is the title that is missing. *)
Theorem from_dict_fields (data : gmap string value) :
  (∀ t, from_dict (EDict data) = Ret t →
     data !! "title" = Some (VStr (title t))
     ∧ data !! "id" = Some (VInt (task_id t))
     ∧ data !! "completed" = Some (VBool (completed t))
     ∧ data !! "created_at" = Some (VStr (created_at t))
     ∧ (data !! "priority" = None ∨ data !! "priority" = Some VNone →
          priority t = None)
     ∧ (data !! "due_date" = None ∨ data !! "due_date" = Some VNone →
          due_date t = None)
     ∧ (data !! "tags" = None → tags t = []))
  ∧ (data !! "title" = None → from_dict (EDict data) = Raise KeyError)
  ∧ (data !! "title" = None ∨ data !! "id" = None
     ∨ data !! "completed" = None ∨ data !! "created_at" = None →
     ∃ e, from_dict (EDict data) = Raise e).
Proof.
  split; [apply from_dict_inv|]. split.
  - intros Hd. unfold from_dict, getitem. by rewrite Hd.
  - intros Hmiss. destruct (from_dict (EDict data)) as [t|e] eqn:E; [|by exists e].
    apply from_dict_inv in E as (H1 & H2 & H3 & H4 & _).
    destruct Hmiss as [Hm|[Hm|[Hm|Hm]]]; congruence.
Qed.

Lemma ids_from_NoDup (g : Z) (n : nat) : NoDup (ids_from g n).
Proof.
  revert g. induction n as [|n IH]; intros g; simpl; [apply NoDup_nil_2|].
  apply NoDup_cons. split; [|apply IH].
  intros Hin. apply ids_from_ge in Hin. lia.
Qed.

Lemma unique_ids_app_fresh (l k : list Task) :
  unique_ids l →
  map task_id k = ids_from (_generate_id l) (length k) →
  unique_ids (l ++ k).
Proof.
  unfold unique_ids. intros Hu Hk. rewrite map_app, Hk.
  apply NoDup_app. split; [done|]. split; [|apply ids_from_NoDup].
  intros i Hi Hfresh. apply ids_from_ge in Hfresh.
  change (i ∈ task_id <$> l) in Hi.
  apply list_elem_of_fmap in Hi as (t & -> & Ht).
  apply generate_id_above in Ht. lia.
Qed.

(** What an import leaves in the collection, whatever it returns: the
    tasks held before, followed by tasks numbered from the next
    identifier on. *)
Lemma import_tasks_appends (fname format : string) s :
  ∃ imported,
    tasks (snd (import_tasks fname format s)) = tasks s ++ imported
    ∧ map task_id imported = ids_from (_generate_id (tasks s)) (length imported).
Proof.
  assert (Hsame : ∃ imported, tasks s = tasks s ++ imported
    ∧ map task_id imported = ids_from (_generate_id (tasks s)) (length imported)).
  { exists []. by rewrite app_nil_r. }
  destruct (String.eqb (lower format) "json") eqn:Hjson.
  - rewrite (import_json_run _ _ _ Hjson).
    destruct (disk s !! fname) as [[file|]|]; try exact Hsame.
    destruct (json_load file) as [data|]; try exact Hsame.
    destruct (from_dicts data) as [l|]; try exact Hsame.
    exists (renumber (_generate_id (tasks s)) l). split; [done|apply renumber_ids].
  - destruct (String.eqb (lower format) "csv") eqn:Hcsv.
    + rewrite (import_csv_run _ _ _ Hjson Hcsv).
      destruct (disk s !! fname) as [[file|]|]; try exact Hsame.
      destruct (csv_read file) as [[|headers rows] [|]]; try exact Hsame.
      * eexists. split; [reflexivity|apply tasks_of_rows_ids].
      * eexists. split; [reflexivity|apply tasks_of_rows_ids].
    + by rewrite (import_unsupported_run _ _ _ Hjson Hcsv).
Qed.

(** X21.  An import never makes two tasks share an identifier: when the
    identifiers of the collection are without duplicates before
    [import_tasks], they are so afterwards, whatever the format, the
    file and the result. *)
Theorem import_keeps_ids_unique (fname format : string) s :
  unique_ids (tasks s) →
  unique_ids (tasks (snd (import_tasks fname format s))).
Proof.
  intros Hu. destruct (import_tasks_appends fname format s) as (k & -> & Hk).
  by apply unique_ids_app_fresh.
Qed.


(** Tags added one by one through [add_tag], each passed through [f]
    first. *)
Lemma add_tags_fold (f : string → string) (l : list string) (t : Task) :
  NoDup (tags t) → "" ∉ tags t →
  let t' := foldl (fun t tag => add_tag (f tag) t) t l in
  t' = set_tags (tags t') t
  ∧ NoDup (tags t') ∧ ("" ∉ tags t')
  ∧ ∀ tag, tag ∈ tags t' → tag ∈ tags t ∨ ∃ piece, piece ∈ l ∧ tag = f piece.
Proof.
  revert t. induction l as [|piece l IH]; intros t Hnd Hne; cbn [foldl].
  - split; [by destruct t|]. split; [done|]. split; [done|]. by left.
  - assert (Hnd' : NoDup (tags (add_tag (f piece) t)))
      by (by apply add_tag_list_NoDup).
    assert (Hne' : "" ∉ tags (add_tag (f piece) t)).
    { simpl. rewrite add_tag_list_case. case_decide as Hd; [done|].
      rewrite elem_of_app, list_elem_of_singleton. intros [?|?]; [done|].
      apply Hd. by left. }
    destruct (IH (add_tag (f piece) t) Hnd' Hne') as (Heq & Hn & He & Hin).
    split; [exact Heq|]. split; [done|]. split; [done|].
    intros tag Htag. destruct (Hin tag Htag) as [Ht|(p & Hp & ->)].
    + simpl in Ht. rewrite add_tag_list_case in Ht. case_decide; [by left|].
      apply elem_of_app in Ht as [Ht|Ht]; [by left|].
      apply list_elem_of_singleton in Ht. right. exists piece.
      split; [constructor|done].
    + right. exists p. split; [by constructor|done].
Qed.

Lemma or_none_not_empty (x : string) : or_none x ≠ Some "".
Proof.
  unfold or_none. destruct (truthy x) eqn:E; [|done].
  apply truthy_nonempty in E. congruence.
Qed.

(** The task of a row is clean, whatever the row holds. *)
Lemma task_of_row_clean (i : Z) (now : string) (row : list string) :
  clean_task (task_of_row i now row).
Proof.
  unfold task_of_row.
  set (t0 := if String.eqb _ _ then _ else _).
  assert (Hnd : NoDup (tags t0))
    by (subst t0; destruct (String.eqb _ _); apply NoDup_nil_2).
  assert (Hne : "" ∉ tags t0)
    by (subst t0; destruct (String.eqb _ _); apply not_elem_of_nil).
  destruct (add_tags_fold strip
    (if (6 <? length row)%nat && truthy (nth 6 row "")
     then split_on comma (nth 6 row "") else []) t0 Hnd Hne) as (Heq & Hn & He & _).
  split; [|done]. rewrite Heq.
  subst t0. destruct (String.eqb _ _); split; simpl; apply or_none_not_empty.
Qed.

Lemma tasks_of_rows_clean (g : Z) (n : nat) (rows : list (list string)) :
  Forall clean_task (tasks_of_rows g n rows).
Proof.
  revert g n. induction rows as [|row rows IH]; intros g n; [constructor|].
  cbn [tasks_of_rows]. destruct (6 <=? length row)%nat; [|apply IH].
  constructor; [apply task_of_row_clean|apply IH].
Qed.

Lemma tasks_of_rows_length (g : Z) (n : nat) (rows : list (list string)) :
  length (tasks_of_rows g n rows)
  = length (List.filter (fun row => (6 <=? length row)%nat) rows).
Proof.
  revert g n. induction rows as [|row rows IH]; intros g n; [done|].
  cbn [tasks_of_rows List.filter]. destruct (6 <=? length row)%nat; [|apply IH].
  simpl. by rewrite IH.
Qed.

(** X24.  Whatever a CSV file holds, the tasks a CSV import adds are
    clean: their priority and due date are [None] or a string that is not
    empty, and their tags hold no duplicate and no empty tag. *)
Theorem import_csv_clean (fname format : string) s :
  lower format = "csv" →
  ∃ imported,
    tasks (snd (import_tasks fname format s)) = tasks s ++ imported
    ∧ Forall clean_task imported.
Proof.
  intros Hfmt.
  assert (Hsame : ∃ imported, tasks s = tasks s ++ imported
                    ∧ Forall clean_task imported).
  { exists []. by rewrite app_nil_r. }
  rewrite import_csv_run by (by rewrite Hfmt).
  destruct (disk s !! fname) as [[file|]|]; try exact Hsame.
  destruct (csv_read file) as [[|headers rows] [|]]; try exact Hsame.
  - eexists. split; [reflexivity|apply tasks_of_rows_clean].
  - eexists. split; [reflexivity|apply tasks_of_rows_clean].
Qed.

(** X25.  The edge cases of the CSV import.  A file without a header row
    makes the import return [False] and changes nothing.  Otherwise the
    header row is discarded whatever it holds, each data row of at least
    six columns adds one task and each shorter row is skipped; so a file
    of a header alone, or of short rows alone, imports with [True] and
    changes nothing. *)
Theorem import_csv_rows (fname format : string) (file : text) s :
  lower format = "csv" →
  disk s !! fname = Some (File file) →
  (∀ fin, csv_read file = ([], fin) →
     import_tasks fname format s = (Ret false, s))
  ∧ (∀ headers rows, csv_read file = (headers :: rows, EndOfFile) →
       fst (import_tasks fname format s) = Ret true
       ∧ length (tasks (snd (import_tasks fname format s)))
         = (length (tasks s)
            + length (List.filter (fun row => (6 <=? length row)%nat) rows))%nat
       ∧ (Forall (fun row => (length row < 6)%nat) rows →
          snd (import_tasks fname format s) = s)).
Proof.
  intros Hfmt Hfile. rewrite import_csv_run by (by rewrite Hfmt). rewrite Hfile.
  split.
  - by intros fin ->.
  - intros headers rows ->. cbn [fst snd]. split; [done|]. split.
    + unfold after_rows. cbn [tasks]. by rewrite length_app, tasks_of_rows_length.
    + intros Hshort.
      assert (Hnone : ∀ g n, tasks_of_rows g n rows = []).
      { induction Hshort as [|row rows Hrow Hrows IH]; intros g n; [done|].
        cbn [tasks_of_rows].
        destruct (Nat.leb_spec 6 (length row)) as [Hle|Hlt]; [lia|apply IH]. }
      unfold after_rows. rewrite Hnone. destruct s. simpl.
      by rewrite app_nil_r, Nat.add_0_r.
Qed.

Lemma truthy_or_empty_any (o : option string) :
  (if truthy (or_empty o) then Some (or_empty o) else None) = drop_empty o.
Proof.
  destruct o as [x|]; simpl; [|done].
  destruct (truthy x) eqn:E; simpl; by rewrite ?E.
Qed.

(** What the import makes of the exported row of any task. *)
Lemma task_of_csv_row_any (i : Z) (now : string) (t : Task) :
  carried_over t (task_of_row i now (csv_row t)).
Proof.
  unfold task_of_row, csv_row. cbn [nth length Nat.ltb Nat.leb andb].
  rewrite status_column, !truthy_or_empty_any.
  set (t0 := if completed t then _ else _).
  assert (Hnd : NoDup (tags t0))
    by (subst t0; destruct (completed t); apply NoDup_nil_2).
  assert (Hne : "" ∉ tags t0)
    by (subst t0; destruct (completed t); apply not_elem_of_nil).
  destruct (add_tags_fold strip
    (if truthy (join_comma (tags t)) then split_on comma (join_comma (tags t))
     else []) t0 Hnd Hne) as (Heq & _).
  rewrite Heq. subst t0. unfold carried_over. by destruct (completed t).
Qed.

Lemma tasks_of_csv_rows_any (g : Z) (n : nat) (l : list Task) :
  Forall2 carried_over l (tasks_of_rows g n (map csv_row l)).
Proof.
  revert g n. induction l as [|t l IH]; intros g n; [constructor|].
  rewrite map_cons. cbn [tasks_of_rows].
  change (6 <=? length (csv_row t))%nat with true. cbv iota.
  constructor; [apply task_of_csv_row_any|apply IH].
Qed.

(** X26.  For every collection, when a CSV export has returned [True]
    and the [csv] reader takes the fields written (each below the field
    size limit, none with a NUL character), an import of the file adds
    one task for each exported task, in order, with the same title and
    completion, and with the priority and the due date as they were
    (the empty string read back as [None]). *)
Theorem csv_round_trip_any_collection s s1 (fname format : string)
    (T : list Task) :
  lower format = "csv" →
  export_tasks fname format s = (Ret true, s1) →
  csv_readable (csv_header :: map csv_row (tasks s)) →
  ∃ imported,
    fst (import_tasks fname format (set_tasks T s1)) = Ret true
    ∧ tasks (snd (import_tasks fname format (set_tasks T s1))) = T ++ imported
    ∧ length imported = length (tasks s)
    ∧ Forall2 carried_over (tasks s) imported.
Proof.
  intros Hfmt. rewrite export_tasks_run, Hfmt.
  change (String.eqb "csv" "json") with false.
  change (String.eqb "csv" "csv") with true. cbv iota.
  destruct (csv_write (csv_header :: map csv_row (tasks s)))
    as [t|partial] eqn:Hw;
    [|by destruct (disk s !! fname) as [[file|]|]].
  assert (Hs1 : (Ret true, set_disk (<[fname := File t]> (disk s)) s)
                = (Ret true, s1) →
    csv_readable (csv_header :: map csv_row (tasks s)) →
    ∃ imported,
      fst (import_tasks fname format (set_tasks T s1)) = Ret true
      ∧ tasks (snd (import_tasks fname format (set_tasks T s1))) = T ++ imported
      ∧ length imported = length (tasks s)
      ∧ Forall2 carried_over (tasks s) imported).
  { intros [= <-] Hread.
    pose proof (tasks_of_csv_rows_any (_generate_id T) (time s) (tasks s))
      as Hcarried.
    exists (tasks_of_rows (_generate_id T) (time s) (map csv_row (tasks s))).
    rewrite import_csv_run by (by rewrite Hfmt).
    cbn [disk filename tasks set_tasks set_disk].
    rewrite lookup_insert_eq, (csv_read_write _ _ Hw Hread).
    split; [done|]. split; [done|].
    split; [symmetry; by apply Forall2_length in Hcarried|done]. }
  by destruct (disk s !! fname) as [[file|]|].
Qed.

(** The loop over the tags of the menu calls [add_tag] on the task at the
    end of the collection. *)
Lemma menu_tags_run (tgs : list string) (l : list Task) (t : Task) s :
  tasks s = l ++ [t] →
  for_each tgs (fun tag => update_task (length l) (add_tag tag)) s
  = (Ret tt, set_tasks (l ++ [foldl (fun t tag => add_tag (id tag) t) t tgs]) s).
Proof.
  revert t s. induction tgs as [|tag tgs IH]; intros t s Hs.
  - simpl. unfold mret, M_ret, set_tasks. rewrite <-Hs. by destruct s.
  - simpl. unfold mbind, M_bind, update_task at 1. rewrite Hs, alter_last.
    by rewrite (IH (add_tag tag t)).
Qed.

(** X27.  Choice "1" of the menu appends one task with the next
    identifier, the title as typed, not completed, and a priority and a
    due date that are [None] when the line typed was empty.  Its tags are
    pieces of the tags line between commas, stripped; they hold no
    duplicate and no empty tag, so a piece of white space only adds no
    tag when [strip] leaves nothing of it. *)
Theorem menu_add_clean (ttl prio due tags_input : string) s :
  ∃ t,
    menu_add ttl prio due tags_input s
    = (Ret tt, mkState (tasks s ++ [t]) (filename s) (disk s) (S (time s)))
    ∧ task_id t = _generate_id (tasks s) ∧ title t = ttl
    ∧ completed t = false ∧ created_at t = strftime_now (time s)
    ∧ priority t = or_none prio ∧ due_date t = or_none due
    ∧ clean_task t
    ∧ ∀ tag, tag ∈ tags t →
        ∃ piece, piece ∈ split_on comma tags_input ∧ tag = strip piece.
Proof.
  set (t0 := new_task (_generate_id (tasks s)) (strftime_now (time s)) ttl
               (or_none prio) (or_none due)).
  assert (Hnd : NoDup (tags t0)) by apply NoDup_nil_2.
  assert (Hne : "" ∉ tags t0) by apply not_elem_of_nil.
  unfold menu_add, mbind, M_bind, add_task_m, add_task. cbn [fst snd].
  fold t0. destruct (truthy tags_input).
  - erewrite (menu_tags_run _ (tasks s) t0); [|reflexivity].
    destruct (add_tags_fold id (map strip (split_on comma tags_input)) t0 Hnd Hne)
      as (Heq & Hn & He & Hin).
    eexists. split; [reflexivity|]. rewrite Heq.
    repeat split; try done; try apply or_none_not_empty.
    intros tag Htag. cbn [tags set_tags] in Htag.
    destruct (Hin tag Htag) as [Ht|(p & Hp & ->)]; [by apply elem_of_nil in Ht|].
    change (p ∈ strip <$> split_on comma tags_input) in Hp.
    apply list_elem_of_fmap in Hp as (piece & -> & Hpiece). by exists piece.
  - exists t0. split; [reflexivity|].
    repeat split; try done; try apply or_none_not_empty.
    intros tag Htag. by apply elem_of_nil in Htag.
Qed.

(** ** The command line *)




(** X29.  When the backing file exists and does not load (it cannot be
    opened, its text is not JSON, or a record is rejected), [main] raises
    for every command line, with a sub-command ([add] included) or
    without arguments, and leaves the file system as it is: the file is
    not overwritten. *)
Theorem main_fails_on_bad_file (argv : option command)
    (menu_loop : @M text unit) (ki : interrupt) s :
  (∀ l, ¬ file_holds (disk s) l) →
  ∃ e s', main argv menu_loop ki s = (Raise e, s') ∧ disk s' = disk s.
Proof.
  intros Hbad.
  assert (Hload : ∃ e,
    load_tasks (mkState [] "tasks.json" (disk s) (time s))
    = (Raise e, mkState [] "tasks.json" (disk s) (time s))).
  { rewrite load_tasks_run. cbn [disk filename].
    destruct (disk s !! "tasks.json") as [[file|]|] eqn:Hd.
    - destruct (json_load file) as [data|] eqn:Hl; [|by eexists].
      destruct (from_dicts data) as [l|e] eqn:Hf; [|by eexists].
      exfalso. apply (Hbad l). right. by exists file, data.
    - by eexists.
    - exfalso. apply (Hbad []). by left. }
  destruct Hload as [e Hload]. exists e. eexists.
  destruct argv as [c|]; unfold main, interactive_mode, run_cli;
    unfold mbind at 1; unfold M_bind at 1; rewrite Hload; done.
Qed.

End PersistenceProperties.

(** ** The remaining operations run on the example managers *)

Lemma save_load_any_collection_witness :
  save_tasks state_empty_priority
    = (Ret tt, snd (save_tasks state_empty_priority))
  ∧ load_tasks (set_tasks [] (snd (save_tasks state_empty_priority)))
    = (Ret true,
       set_tasks (map drop_empty_fields (tasks state_empty_priority))
         (snd (save_tasks state_empty_priority))).
Proof.
  assert (Hsave : save_tasks state_empty_priority
                  = (Ret tt, snd (save_tasks state_empty_priority)))
    by (vm_compute; reflexivity).
  split; [exact Hsave|].
  exact (proj1 (save_load_any_collection state_empty_priority _ [] Hsave)).
Defined.

Lemma from_dict_fields_witness :
  from_dict (EDict (to_dict undated_task)) = Ret undated_task
  ∧ to_dict undated_task !! "priority" = None
  ∧ priority undated_task = None
  ∧ (∅ : gmap string value) !! "title" = None
  ∧ from_dict (EDict ∅) = Raise KeyError.
Proof.
  assert (Hret : from_dict (EDict (to_dict undated_task)) = Ret undated_task)
    by (vm_compute; reflexivity).
  assert (Hprio : to_dict undated_task !! "priority" = None)
    by (vm_compute; reflexivity).
  assert (Hmiss : (∅ : gmap string value) !! "title" = None) by reflexivity.
  split; [exact Hret|]. split; [exact Hprio|]. split.
  - destruct (proj1 (from_dict_fields (to_dict undated_task)) undated_task Hret)
      as (_ & _ & _ & _ & Hp & _).
    exact (Hp (or_introl Hprio)).
  - split; [exact Hmiss|]. exact (proj1 (proj2 (from_dict_fields ∅)) Hmiss).
Defined.

Lemma import_keeps_ids_unique_witness :
  unique_ids (tasks state_with_csv)
  ∧ unique_ids (tasks (snd (import_tasks "in.csv" "csv" state_with_csv))).
Proof.
  assert (Hu : unique_ids (tasks state_with_csv)).
  { unfold unique_ids. apply (bool_decide_unpack _). vm_compute. exact I. }
  split; [exact Hu|].
  exact (import_keeps_ids_unique "in.csv" "csv" state_with_csv Hu).
Defined.


(** An export to a device that takes no write returns [False], and the
    file it opened is there, empty. *)
Example export_on_full_device :
  @export_tasks test_builtins tagged_text full_device_codec
    "out.json" "json" state_fresh
  = (Ret false, set_disk {[ "out.json" := File empty_file ]} state_fresh).
Proof. vm_compute. reflexivity. Qed.

Lemma import_csv_clean_witness :
  lower "csv" = "csv"
  ∧ ∃ imported,
      tasks (snd (import_tasks "in.csv" "csv" state_with_broken_csv))
        = tasks state_with_broken_csv ++ imported
      ∧ Forall clean_task imported.
Proof.
  assert (Hfmt : lower "csv" = "csv") by reflexivity.
  split; [exact Hfmt|].
  exact (import_csv_clean "in.csv" "csv" state_with_broken_csv Hfmt).
Defined.

Lemma import_csv_rows_witness :
  lower "csv" = "csv"
  ∧ disk state_with_csv !! "in.csv"
    = Some (File (CsvText (csv_header :: two_rows) EndOfFile))
  ∧ csv_read (CsvText (csv_header :: two_rows) EndOfFile)
    = (csv_header :: two_rows, EndOfFile)
  ∧ fst (import_tasks "in.csv" "csv" state_with_csv) = Ret true
  ∧ length (tasks (snd (import_tasks "in.csv" "csv" state_with_csv)))
    = (length (tasks state_with_csv)
       + length (List.filter (fun row => (6 <=? length row)%nat) two_rows))%nat.
Proof.
  assert (Hfmt : lower "csv" = "csv") by reflexivity.
  assert (Hfile : disk state_with_csv !! "in.csv"
                  = Some (File (CsvText (csv_header :: two_rows) EndOfFile)))
    by reflexivity.
  assert (Hread : csv_read (CsvText (csv_header :: two_rows) EndOfFile)
                  = (csv_header :: two_rows, EndOfFile)) by reflexivity.
  split; [exact Hfmt|]. split; [exact Hfile|]. split; [exact Hread|].
  destruct (proj2 (import_csv_rows "in.csv" "csv" _ state_with_csv Hfmt Hfile)
              csv_header two_rows Hread) as (Hret & Hlen & _).
  split; [exact Hret|exact Hlen].
Defined.

Lemma csv_round_trip_any_collection_witness :
  lower "csv" = "csv"
  ∧ export_tasks "out.csv" "csv" state_comma_tag
    = (Ret true, snd (export_tasks "out.csv" "csv" state_comma_tag))
  ∧ csv_readable (csv_header :: map csv_row (tasks state_comma_tag))
  ∧ ∃ imported,
      fst (import_tasks "out.csv" "csv"
             (set_tasks [] (snd (export_tasks "out.csv" "csv" state_comma_tag))))
      = Ret true
      ∧ tasks (snd (import_tasks "out.csv" "csv"
                 (set_tasks [] (snd (export_tasks "out.csv" "csv" state_comma_tag)))))
        = [] ++ imported
      ∧ length imported = length (tasks state_comma_tag)
      ∧ Forall2 carried_over (tasks state_comma_tag) imported.
Proof.
  assert (Hfmt : lower "csv" = "csv") by reflexivity.
  assert (Hexport : export_tasks "out.csv" "csv" state_comma_tag
                    = (Ret true, snd (export_tasks "out.csv" "csv" state_comma_tag)))
    by (vm_compute; reflexivity).
  assert (Hread : csv_readable (csv_header :: map csv_row (tasks state_comma_tag))).
  { repeat constructor. }
  split; [exact Hfmt|]. split; [exact Hexport|]. split; [exact Hread|].
  exact (csv_round_trip_any_collection state_comma_tag _ "out.csv" "csv" []
           Hfmt Hexport Hread).
Defined.


Lemma main_fails_on_bad_file_witness :
  (∀ l, ¬ file_holds (disk state_locked) l)
  ∧ (∃ e s', main (Some (CmdAdd "Buy milk" None None)) (mret tt) NoInterrupt
               state_locked = (Raise e, s')
       ∧ disk s' = disk state_locked)
  ∧ (∃ e s', main None (mret tt) NoInterrupt state_locked = (Raise e, s')
       ∧ disk s' = disk state_locked).
Proof.
  assert (Hbad : ∀ l, ¬ file_holds (disk state_locked) l).
  { intros l [[Hnone _]|(file & data & Hfile & _)]; discriminate. }
  split; [exact Hbad|]. split.
  - exact (main_fails_on_bad_file (Some (CmdAdd "Buy milk" None None)) (mret tt)
             NoInterrupt state_locked Hbad).
  - exact (main_fails_on_bad_file None (mret tt) NoInterrupt state_locked Hbad).
Defined.

(** Two [add] commands on an empty directory, then [delete 1], then a
    third [add]: the file holds the tasks 2 and 3. *)
Example main_run :
  let run c s := snd (main (Some c) (mret tt) NoInterrupt s) in
  let s1 := run (CmdAdd "Buy milk" None None) state_fresh in
  let s2 := run (CmdAdd "Clean" None None) s1 in
  let s3 := run (CmdDelete 1) s2 in
  let s4 := run (CmdAdd "Pay bills" None None) s3 in
  map task_id (tasks (snd (load_tasks (mkState [] "tasks.json" (disk s4) 0))))
  = [2; 3].
Proof. vm_compute. reflexivity. Qed.
